(** * Drive plugin: local-folder ingestion and retrying sync

    A shallow embedding of [src/plugins/drive.ts] (class [DrivePlugin]) and of
    the table declaration [fileMetadataTable] it writes to, followed by the
    properties of the ingestion pipeline and of the retry loop.

    Numbers are integers ([Z]); strings are [string]; file contents are lists
    of bytes.  The collaborators the plugin reaches through its runtime (file
    system, database driver, task queue, clock, digest, remote sync call) are
    an explicit environment [Env] of oracles; what the plugin does to them is
    recorded in a [World].

    A listener of the watcher is an async function.  [handle] and [deliver]
    run listeners to their ends, one after the other; [runLoop] runs them
    turn by turn, from one [await] to the next, in any order.  The database
    checks the primary key and the type of the column [id]; a statement it
    rejects for any other reason (an unreachable server, say) is a fault of
    the oracle [dbFault].

    [maxRetries] ranges over the whole numbers, and a delay handed to
    [setTimeout] is the time waited as long as it is at most [2^31 - 1] ms,
    the largest delay a timer takes. *)

From Stdlib Require Import ZArith List String Ascii Bool Lia.
From Stdlib Require Import DecimalString.
From Stdlib Require Init.Byte.
Import ListNotations.

Local Open Scope string_scope.
Local Open Scope Z_scope.
Local Open Scope list_scope.

(** String concatenation, as [+] or a template literal joins strings. *)
Infix "+++" := String.append (right associativity, at level 60).

(* ===================================================================== *)
(** ** String helpers used by the plugin *)
(* ===================================================================== *)

Module Js.

(** [s.endsWith(suffix)] *)
Definition endsWith (s suffix : string) : bool :=
  let n := String.length s in
  let m := String.length suffix in
  (m <=? n)%nat && String.eqb (substring (n - m) m s) suffix.

(** The character class [[\\/]] of the separator regular expression. *)
Definition isSep (c : ascii) : bool :=
  Ascii.eqb c "/"%char || Ascii.eqb c "\"%char.

(** [s.split(/[\\/]/)]: the pieces between separators; never empty. *)
Fixpoint split (s : string) : list string :=
  match s with
  | EmptyString => [EmptyString]
  | String c s' =>
      if isSep c then EmptyString :: split s'
      else match split s' with
           | x :: xs => String c x :: xs
           | [] => [String c EmptyString]
           end
  end.

(** [arr.pop()] as a value: the last element. *)
Definition pop (l : list string) : string := List.last l EmptyString.

(** [x || dflt] on strings: the empty string is falsy. *)
Definition orElse (x dflt : string) : string :=
  match x with
  | EmptyString => dflt
  | _ => x
  end.

(** A value that may be left out, with its default. *)
Definition orDefault {A} (o : option A) (d : A) : A :=
  match o with Some a => a | None => d end.

(** [s.slice(0, n)] *)
Definition slice0 (n : nat) (s : string) : string := substring 0 n s.

(** [`${n}`] for an integer. *)
Definition showZ (n : Z) : string := NilZero.string_of_int (Z.to_int n).

(** [Math.pow(2, n)] for a non-negative integer exponent. *)
Definition pow2 (n : Z) : Z := 2 ^ n.

(** The largest delay a timer takes, [2^31 - 1] ms; [setTimeout] replaces a
    larger one by 1 ms. *)
Definition maxTimerDelay : Z := 2147483647.

(** No separator occurs in the string. *)
Fixpoint noSep (s : string) : bool :=
  match s with
  | EmptyString => true
  | String c s' => negb (isSep c) && noSep s'
  end.

End Js.

(** [filePath.split(/[\\/]/).pop() || 'unknown'] (lines 110 and 125). *)
Definition fileNameOf (filePath : string) : string :=
  Js.orElse (Js.pop (Js.split filePath)) "unknown".

(** What is thrown and caught: the message of the error. *)
Definition JsError := string.

(* ===================================================================== *)
(** ** The table [biograph.file_metadata] *)
(* ===================================================================== *)

(** The column types of the table are those of PostgreSQL
    ([drizzle-orm/pg-core]). *)
Module Pg.

Definition isHexDigit (c : ascii) : bool :=
  let n := nat_of_ascii c in
  ((48 <=? n) && (n <=? 57)
   || (65 <=? n) && (n <=? 70)
   || (97 <=? n) && (n <=? 102))%nat.

(** [left] bytes, each written as two hexadecimal digits; a hyphen may
    follow a byte at an odd position, the last one excepted.  [i] is the
    position of the next byte.  The result is what follows the bytes. *)
Fixpoint hexBytes (left i : nat) (s : string) : option string :=
  match left with
  | O => Some s
  | S left' =>
      match s with
      | String a (String b rest) =>
          if isHexDigit a && isHexDigit b then
            hexBytes left' (S i)
              (match rest with
               | String c rest' =>
                   if Ascii.eqb c "-"%char && Nat.odd i && (i <? 15)%nat
                   then rest' else rest
               | EmptyString => rest
               end)
          else None
      | _ => None
      end
  end.

(** The input syntax of type [uuid]: sixteen bytes in hexadecimal digits,
    with optional hyphens after groups of four digits, the whole optionally
    in braces. *)
Definition isUuid (s : string) : bool :=
  match s with
  | String "{"%char body =>
      match hexBytes 16 0 body with
      | Some rest => String.eqb rest "}"
      | None => false
      end
  | _ =>
      match hexBytes 16 0 s with
      | Some rest => String.eqb rest ""
      | None => false
      end
  end.

(** A string in double quotes. *)
Definition quoted (s : string) : string :=
  String (ascii_of_nat 34) (s +++ String (ascii_of_nat 34) EmptyString).

(** The error of a value that does not read as a [uuid]. *)
Definition invalidUuid (s : string) : JsError :=
  "invalid input syntax for type uuid: " +++ quoted s.

End Pg.

(** A selected row ([FileMetadata], the table's [$inferSelect]).  [fileSize]
    and [tags] are nullable columns.  The column [id] is declared [uuid]; the
    program handles its values as strings. *)
Record FileMetadata := mkFileMetadata {
  id : string;
  hash : string;
  fileName : string;
  fileSize : option Z;
  createdAt : Z;
  modifiedAt : Z;
  tags : option (list string)
}.

(** The argument of [.values(...)] ([NewFileMetadata], [$inferInsert]):
    columns with a default or nullable columns may be left out. *)
Record NewFileMetadata := mkNewFileMetadata {
  n_id : option string;
  n_hash : string;
  n_fileName : string;
  n_fileSize : option Z;
  n_createdAt : option Z;
  n_modifiedAt : option Z;
  n_tags : option (list string)
}.

(** The [set] object of [.onConflictDoUpdate]: a partial row. *)
Record RowPatch := mkRowPatch {
  p_id : option string;
  p_hash : option string;
  p_fileName : option string;
  p_fileSize : option (option Z);
  p_createdAt : option Z;
  p_modifiedAt : option Z;
  p_tags : option (option (list string))
}.

Definition Table := list FileMetadata.

Module Db.

(** Column defaults: [defaultRandom()] for [id], [defaultNow()] for the two
    timestamps, NULL for the nullable columns. *)
Definition complete (freshId : string) (now : Z) (v : NewFileMetadata) : FileMetadata :=
  {| id := Js.orDefault (n_id v) freshId;
     hash := n_hash v;
     fileName := n_fileName v;
     fileSize := n_fileSize v;
     createdAt := Js.orDefault (n_createdAt v) now;
     modifiedAt := Js.orDefault (n_modifiedAt v) now;
     tags := n_tags v |}.

(** [UPDATE ... SET] with the columns the patch names. *)
Definition applyPatch (p : RowPatch) (r : FileMetadata) : FileMetadata :=
  {| id := Js.orDefault (p_id p) (id r);
     hash := Js.orDefault (p_hash p) (hash r);
     fileName := Js.orDefault (p_fileName p) (fileName r);
     fileSize := Js.orDefault (p_fileSize p) (fileSize r);
     createdAt := Js.orDefault (p_createdAt p) (createdAt r);
     modifiedAt := Js.orDefault (p_modifiedAt p) (modifiedAt r);
     tags := Js.orDefault (p_tags p) (tags r) |}.

(** [select().from(fileMetadataTable).where(eq(fileMetadataTable.hash, h))] *)
Definition selectByHash (h : string) (t : Table) : list FileMetadata :=
  filter (fun r => String.eqb (hash r) h) t.

(** A string offered for the column [id] must read as a [uuid]. *)
Definition uuidError (value : option string) : option JsError :=
  match value with
  | Some s => if Pg.isUuid s then None else Some (Pg.invalidUuid s)
  | None => None
  end.

(** The values of a statement are read into the types of their columns
    before any row is looked at: the [id] of [.values] first, then the [id]
    of [set]. *)
Definition typeError (v : NewFileMetadata) (set : RowPatch) : option JsError :=
  match uuidError (n_id v) with
  | Some e => Some e
  | None => uuidError (p_id set)
  end.

(** [insert(...).values(v).onConflictDoUpdate({target: hash, set}).returning()]:
    the statement is refused with an error, or gives the new table and the
    returned rows.  A row whose [hash] equals the proposed one is updated in
    place, otherwise the proposed row is added. *)
Definition insertOnConflictDoUpdate
    (freshId : string) (now : Z) (v : NewFileMetadata) (set : RowPatch) (t : Table)
    : JsError + (Table * list FileMetadata) :=
  match typeError v set with
  | Some e => inl e
  | None =>
      inr (match selectByHash (n_hash v) t with
           | [] => let r := complete freshId now v in (t ++ [r], [r])
           | (_ :: _) as hit =>
               (map (fun r => if String.eqb (hash r) (n_hash v)
                              then applyPatch set r else r) t,
                map (applyPatch set) hit)
           end)
  end.

(** The primary key: no two rows share a [hash]. *)
Definition pkValid (t : Table) : Prop := NoDup (map hash t).

End Db.

(* ===================================================================== *)
(** ** Runtime: environment, world and the effect monad *)
(* ===================================================================== *)

(** The value [syncGoogleDriveChanges] resolves to, as [JSON.stringify]
    renders it. *)
Definition SyncResult := string.

Inductive LogEntry :=
| Info (msg : string)
| Error (msg : string) (err : option JsError).

(** The [metadata] object of the task created at lines 172-178. *)
Record TaskMetadata := mkTaskMetadata {
  m_updateInterval : Z;
  m_updatedAt : Z;
  m_fileId : string;
  m_fileName : string;
  m_modifiedAt : Z
}.

(** The argument of [runtime.createTask]. *)
Record Task := mkTask {
  t_name : string;
  t_description : string;
  t_tags : list string;
  t_metadata : TaskMetadata
}.

(** What the plugin asks of its collaborators, in order. *)
Inductive Effect :=
| EReadFile (path : string)
| EStat (path : string)
| ESelect (h : string)
| EInsert (h : string)
| ECreateTask (name : string)
| ELog (entry : LogEntry)
| ESync
| ESleep (ms : Z).

(** The collaborators.  A file-system call on a path either fails or gives
    the bytes (the size); the [k]-th database statement, task creation and
    remote sync call may fail; the [k]-th reading of the clock is
    [clock k].  [md5hex b] is [createHash('md5').update(b).digest('hex')]. *)
Record Env := mkEnv {
  readFile : string -> JsError + list Byte.byte;
  statSize : string -> JsError + Z;
  md5hex : list Byte.byte -> string;
  clock : nat -> Z;
  dbFault : nat -> option JsError;
  dbNow : nat -> Z;
  dbRandomUuid : nat -> string;
  taskFault : nat -> option JsError;
  syncGoogleDriveChanges : nat -> JsError + SyncResult
}.

Record World := mkWorld {
  db : Table;
  tasks : list Task;
  trace : list Effect;
  clockReads : nat;
  dbCalls : nat;
  taskCalls : nat;
  syncCalls : nat
}.

(** How a call ends: it returns a value or throws. *)
Inductive Completion (A : Type) :=
| Normal (a : A)
| Throw (e : JsError).
Arguments Normal {A} a.
Arguments Throw {A} e.

(** Effects persist when a call throws: the world is threaded through both
    completions. *)
Definition M (A : Type) := World -> Completion A * World.

Definition ret {A} (a : A) : M A := fun w => (Normal a, w).

Definition throw {A} (e : JsError) : M A := fun w => (Throw e, w).

Definition bind {A B} (m : M A) (k : A -> M B) : M B :=
  fun w =>
    match m w with
    | (Normal a, w') => k a w'
    | (Throw e, w') => (Throw e, w')
    end.

(** [try { body } catch (error) { handler(error) }] *)
Definition tryCatch {A} (body : M A) (handler : JsError -> M A) : M A :=
  fun w =>
    match body w with
    | (Normal a, w') => (Normal a, w')
    | (Throw e, w') => handler e w'
    end.

Declare Scope js_scope.
Delimit Scope js_scope with js.
Notation "x <- m ;; k" := (bind m (fun x => k))
  (at level 61, m at next level, right associativity) : js_scope.
Notation "m ;; k" := (bind m (fun _ => k))
  (at level 61, right associativity) : js_scope.
Local Open Scope js_scope.

Definition emit (e : Effect) : M unit :=
  fun w => (Normal tt,
            {| db := db w; tasks := tasks w; trace := trace w ++ [e];
               clockReads := clockReads w; dbCalls := dbCalls w;
               taskCalls := taskCalls w; syncCalls := syncCalls w |}).

Module logger.
Definition info (msg : string) : M unit := emit (ELog (Info msg)).
Definition error (msg : string) (err : option JsError) : M unit :=
  emit (ELog (Error msg err)).
End logger.

Definition liftResult {A} (r : JsError + A) : M A :=
  match r with
  | inl e => throw e
  | inr a => ret a
  end.

Section Runtime.

Variable E : Env.

(** [fs.readFile(path)] *)
Definition fsReadFile (path : string) : M (list Byte.byte) :=
  emit (EReadFile path) ;; liftResult (readFile E path).

(** [(await fs.stat(path)).size] *)
Definition fsStatSize (path : string) : M Z :=
  emit (EStat path) ;; liftResult (statSize E path).

(** [new Date()] and [Date.now()]: the next reading of the clock. *)
Definition newDate : M Z :=
  fun w => (Normal (clock E (clockReads w)),
            {| db := db w; tasks := tasks w; trace := trace w;
               clockReads := S (clockReads w); dbCalls := dbCalls w;
               taskCalls := taskCalls w; syncCalls := syncCalls w |}).

(** A database statement: it fails as a whole, leaving the table as it was,
    when the database cannot be reached or refuses the statement; otherwise
    [stmt] gives the new table and the result. *)
Definition dbRun {A} (stmt : nat -> Table -> JsError + (Table * A)) : M A :=
  fun w =>
    let k := dbCalls w in
    let failed e :=
      (Throw e,
       {| db := db w; tasks := tasks w; trace := trace w;
          clockReads := clockReads w; dbCalls := S k;
          taskCalls := taskCalls w; syncCalls := syncCalls w |}) in
    match dbFault E k with
    | Some e => failed e
    | None =>
        match stmt k (db w) with
        | inl e => failed e
        | inr (t', a) =>
            (Normal a,
             {| db := t'; tasks := tasks w; trace := trace w;
                clockReads := clockReads w; dbCalls := S k;
                taskCalls := taskCalls w; syncCalls := syncCalls w |})
        end
    end.

Definition dbSelectByHash (h : string) : M (list FileMetadata) :=
  emit (ESelect h) ;; dbRun (fun _ t => inr (t, Db.selectByHash h t)).

Definition dbInsertOnConflictDoUpdate (v : NewFileMetadata) (set : RowPatch)
    : M (list FileMetadata) :=
  emit (EInsert (n_hash v)) ;;
  dbRun (fun k t =>
           Db.insertOnConflictDoUpdate (dbRandomUuid E k) (dbNow E k) v set t).

(** [runtime.createTask(task)] *)
Definition createTask (task : Task) : M unit :=
  emit (ECreateTask (t_name task)) ;;
  fun w =>
    let k := taskCalls w in
    match taskFault E k with
    | Some e =>
        (Throw e,
         {| db := db w; tasks := tasks w; trace := trace w;
            clockReads := clockReads w; dbCalls := dbCalls w;
            taskCalls := S k; syncCalls := syncCalls w |})
    | None =>
        (Normal tt,
         {| db := db w; tasks := tasks w ++ [task]; trace := trace w;
            clockReads := clockReads w; dbCalls := dbCalls w;
            taskCalls := S k; syncCalls := syncCalls w |})
    end.

(** [await syncGoogleDriveChanges(runtime)] *)
Definition callSync : M SyncResult :=
  emit ESync ;;
  fun w =>
    let k := syncCalls w in
    liftResult (syncGoogleDriveChanges E k)
      {| db := db w; tasks := tasks w; trace := trace w;
         clockReads := clockReads w; dbCalls := dbCalls w;
         taskCalls := taskCalls w; syncCalls := S k |}.

(** [await new Promise((resolve) => setTimeout(resolve, ms))]: the delay is
    recorded as it is handed to the timer. *)
Definition sleep (ms : Z) : M unit := emit (ESleep ms).

End Runtime.

(* ===================================================================== *)
(** ** The plugin: [DrivePlugin] *)
(* ===================================================================== *)

(** Events of the chokidar watcher the plugin listens to (lines 96-116). *)
Inductive WatchEvent :=
| EvAdd (path : string)
| EvChange (path : string)
| EvUnlink (path : string)
| EvError (error : JsError).

Section DrivePlugin.

Variable E : Env.

(** The object passed to [.values] at lines 147-154.  The key [status] is cast
    past the type checker and names no column of the table, so no column
    receives it. *)
Definition insertValues (fileId h fileName : string) (fileSize now : Z)
    : NewFileMetadata :=
  {| n_id := Some fileId;
     n_hash := h;
     n_fileName := fileName;
     n_fileSize := Some fileSize;
     n_createdAt := None;
     n_modifiedAt := Some now;
     n_tags := None |}.

(** The [set] object at lines 157-162. *)
Definition conflictSet (fileId fileName : string) (fileSize now : Z)
    : RowPatch :=
  {| p_id := Some fileId;
     p_hash := None;
     p_fileName := Some fileName;
     p_fileSize := Some (Some fileSize);
     p_createdAt := None;
     p_modifiedAt := Some now;
     p_tags := None |}.

(** The task built at lines 168-179. *)
Definition pdfTask (fileId fileName : string) (updatedAt modifiedAt : Z)
    : Task :=
  {| t_name := "PROCESS_PDF";
     t_description := "Convert local PDF to RDF triples";
     t_tags := ["rdf"; "graph"; "process"; "hypothesis"];
     t_metadata :=
       {| m_updateInterval := 3 * 60 * 1000;
          m_updatedAt := updatedAt;
          m_fileId := fileId;
          m_fileName := fileName;
          m_modifiedAt := modifiedAt |} |}.

(** [processLocalFile(filePath, runtime)], lines 122-184. *)
Definition processLocalFile (filePath : string) : M unit :=
  tryCatch
    (let fileName := fileNameOf filePath in
     fileBuffer <- fsReadFile E filePath ;;
     fileSize <- fsStatSize E filePath ;;
     let h := md5hex E fileBuffer in
     fileExists <- dbSelectByHash E h ;;
     if (0 <? List.length fileExists)%nat then
       logger.info ("Local file " +++ fileName +++ " already exists, skipping")
     else
       let fileId := "local_" +++ Js.slice0 8 h in
       valuesNow <- newDate E ;;
       setNow <- newDate E ;;
       result <- dbInsertOnConflictDoUpdate E
                   (insertValues fileId h fileName fileSize valuesNow)
                   (conflictSet fileId fileName fileSize setNow) ;;
       if (0 <? List.length result)%nat then
         logger.info
           ("Added local file " +++ fileName +++ " to biograph.file_metadata") ;;
         updatedAt <- newDate E ;;
         taskModifiedAt <- newDate E ;;
         createTask E (pdfTask fileId fileName updatedAt taskModifiedAt)
       else ret tt)
    (fun error =>
       logger.error ("Failed to process local file " +++ filePath +++ ":")
                    (Some error)).

(** The listeners registered by [startLocalMonitoring], lines 96-116. *)
Definition onAdd (path : string) : M unit :=
  if negb (Js.endsWith path ".pdf") then
    logger.info ("Skipping non-PDF file: " +++ path)
  else processLocalFile path.

Definition onChange (path : string) : M unit :=
  if negb (Js.endsWith path ".pdf") then ret tt
  else processLocalFile path.

Definition onUnlink (path : string) : M unit :=
  if negb (Js.endsWith path ".pdf") then ret tt
  else
    let fileName := fileNameOf path in
    logger.info ("Local file deleted: " +++ fileName).

Definition onError (error : JsError) : M unit :=
  logger.error "Local monitoring error:" (Some error).

Definition handle (ev : WatchEvent) : M unit :=
  match ev with
  | EvAdd path => onAdd path
  | EvChange path => onChange path
  | EvUnlink path => onUnlink path
  | EvError error => onError error
  end.

(** [startLocalMonitoring(folderPath, runtime)], lines 89-119: the watcher is
    its table of listeners. *)
Definition startLocalMonitoring (folderPath : string)
    : M (WatchEvent -> M unit) :=
  logger.info ("Started monitoring local folder: " +++ folderPath) ;;
  ret handle.

(** Events delivered one after the other, each listener run to its end
    before the next event; a listener that throws ends the delivery with
    that error. *)
Fixpoint deliver (evs : list WatchEvent) : M unit :=
  match evs with
  | [] => ret tt
  | ev :: rest => handle ev ;; deliver rest
  end.

(** Lines 166-180: what [processLocalFile] does with the rows the statement
    returned. *)
Definition afterInsert (result : list FileMetadata) (fileId fileName : string)
    : M unit :=
  if (0 <? List.length result)%nat then
    logger.info
      ("Added local file " +++ fileName +++ " to biograph.file_metadata") ;;
    updatedAt <- newDate E ;;
    taskModifiedAt <- newDate E ;;
    createTask E (pdfTask fileId fileName updatedAt taskModifiedAt)
  else ret tt.

(** The watcher does not await its listeners: a listener runs until its next
    [await], and other listeners have their turns before it is resumed.  A
    [Listener] is a call of [processLocalFile] between two turns: the
    operation it awaits, with the constants of the body it still needs.  The
    dynamic import of line 124 touches no collaborator and is no stage of its
    own. *)
Inductive Listener :=
| AwaitReadFile (filePath fileName : string)
| AwaitStat (filePath fileName : string) (fileBuffer : list Byte.byte)
| AwaitSelect (filePath fileName : string) (fileSize : Z) (h : string)
| AwaitInsert (filePath fileName fileId : string)
              (values : NewFileMetadata) (set : RowPatch)
| AwaitCreateTask (filePath : string) (task : Task)
| Settled.

(** One turn of a listener: the awaited operation and the body up to the
    next [await], run without interruption.  An error goes to the [catch]
    clause of lines 181-183, which ends the call. *)
Definition turn (filePath : string) (body : M Listener) (w : World)
    : Listener * World :=
  match body w with
  | (Normal next, w') => (next, w')
  | (Throw error, w') =>
      (Settled,
       snd (logger.error ("Failed to process local file " +++ filePath +++ ":")
                         (Some error) w'))
  end.

(** The body of [processLocalFile], lines 122-184, from one [await] to the
    next. *)
Definition resume (l : Listener) (w : World) : Listener * World :=
  match l with
  | AwaitReadFile filePath fileName =>
      turn filePath
        (fileBuffer <- fsReadFile E filePath ;;
         ret (AwaitStat filePath fileName fileBuffer)) w
  | AwaitStat filePath fileName fileBuffer =>
      turn filePath
        (fileSize <- fsStatSize E filePath ;;
         let h := md5hex E fileBuffer in
         ret (AwaitSelect filePath fileName fileSize h)) w
  | AwaitSelect filePath fileName fileSize h =>
      turn filePath
        (fileExists <- dbSelectByHash E h ;;
         if (0 <? List.length fileExists)%nat then
           logger.info
             ("Local file " +++ fileName +++ " already exists, skipping") ;;
           ret Settled
         else
           let fileId := "local_" +++ Js.slice0 8 h in
           valuesNow <- newDate E ;;
           setNow <- newDate E ;;
           ret (AwaitInsert filePath fileName fileId
                  (insertValues fileId h fileName fileSize valuesNow)
                  (conflictSet fileId fileName fileSize setNow))) w
  | AwaitInsert filePath fileName fileId values set =>
      turn filePath
        (result <- dbInsertOnConflictDoUpdate E values set ;;
         if (0 <? List.length result)%nat then
           logger.info
             ("Added local file " +++ fileName
                +++ " to biograph.file_metadata") ;;
           updatedAt <- newDate E ;;
           taskModifiedAt <- newDate E ;;
           ret (AwaitCreateTask filePath
                  (pdfTask fileId fileName updatedAt taskModifiedAt))
         else ret Settled) w
  | AwaitCreateTask filePath task =>
      turn filePath (createTask E task ;; ret Settled) w
  | Settled => (Settled, w)
  end.

(** The start of a listener, lines 96-116, up to its first [await]. *)
Definition listen (ev : WatchEvent) (w : World) : Listener * World :=
  match ev with
  | EvAdd path =>
      if negb (Js.endsWith path ".pdf") then
        (Settled, snd (logger.info ("Skipping non-PDF file: " +++ path) w))
      else (AwaitReadFile path (fileNameOf path), w)
  | EvChange path =>
      if negb (Js.endsWith path ".pdf") then (Settled, w)
      else (AwaitReadFile path (fileNameOf path), w)
  | EvUnlink path => (Settled, snd (onUnlink path w))
  | EvError error => (Settled, snd (onError error w))
  end.

(** A turn of the event loop: the watcher emits an event, which starts a
    listener, or the listener started as the [i]-th is resumed. *)
Inductive Turn :=
| Emit (ev : WatchEvent)
| Resume (i : nat).

(** [l] with its [i]-th element replaced. *)
Fixpoint setNth {A} (i : nat) (x : A) (l : list A) : list A :=
  match l, i with
  | [], _ => []
  | _ :: rest, O => x :: rest
  | y :: rest, S i' => y :: setNth i' x rest
  end.

(** The listeners started so far and the world they share. *)
Definition Loop := (list Listener * World)%type.

Definition takeTurn (s : Loop) (t : Turn) : Loop :=
  let (pool, w) := s in
  match t with
  | Emit ev =>
      let (l, w') := listen ev w in (pool ++ [l], w')
  | Resume i =>
      match nth_error pool i with
      | Some l => let (l', w') := resume l w in (setNth i l' pool, w')
      | None => s
      end
  end.

(** The event loop run through a sequence of turns. *)
Definition runLoop (turns : list Turn) (s : Loop) : Loop :=
  fold_left takeTurn turns s.

(** One turn of the loop body of [syncWithRetry], lines 71-84, entered with
    [attempts < maxRetries].  [None]: the function returned; [Some a]: go
    round again with [attempts = a]. *)
Definition retryBody (maxRetries attempts : Z) : M (option Z) :=
  tryCatch
    (result <- callSync E ;;
     logger.info ("Drive sync completed: " +++ result) ;;
     ret None)
    (fun error =>
       let attempts := attempts + 1 in
       logger.error ("Drive sync attempt " +++ Js.showZ attempts +++ " failed:")
                    (Some error) ;;
       if attempts =? maxRetries then
         logger.error "Max retries reached, sync failed" None ;;
         throw error
       else
         sleep (1000 * Js.pow2 attempts) ;;
         ret (Some attempts)).

(** [while (attempts < maxRetries) { ... }], lines 70-85.  [None] only when
    the fuel runs out. *)
Fixpoint retryLoop (fuel : nat) (maxRetries attempts : Z) (w : World)
    : option (Completion unit * World) :=
  match fuel with
  | O => None
  | S fuel' =>
      if attempts <? maxRetries then
        match retryBody maxRetries attempts w with
        | (Normal None, w') => Some (Normal tt, w')
        | (Normal (Some attempts'), w') =>
            retryLoop fuel' maxRetries attempts' w'
        | (Throw e, w') => Some (Throw e, w')
        end
      else Some (Normal tt, w)
  end.

(** [syncWithRetry(runtime, maxRetries = 3)], lines 68-86; the argument is
    [None] when the caller leaves [maxRetries] out, and a whole number
    otherwise. *)
Definition syncWithRetry (maxRetries : option Z) (w : World)
    : option (Completion unit * World) :=
  let maxRetries := Js.orDefault maxRetries 3 in
  let attempts := 0 in
  retryLoop (S (Z.to_nat maxRetries)) maxRetries attempts w.

End DrivePlugin.

(* ===================================================================== *)
(** ** A concrete environment for running the plugin *)
(* ===================================================================== *)

Module Demo.

Definition hexDigit (n : nat) : ascii :=
  match n with
  | 0 => "0" | 1 => "1" | 2 => "2" | 3 => "3" | 4 => "4" | 5 => "5"
  | 6 => "6" | 7 => "7" | 8 => "8" | 9 => "9" | 10 => "a" | 11 => "b"
  | 12 => "c" | 13 => "d" | 14 => "e" | _ => "f"
  end%nat%char.

(** A stand-in for the digest: the bytes in lower-case hexadecimal.  The
    plugin uses the digest as an opaque key only. *)
Fixpoint hexOfBytes (b : list Byte.byte) : string :=
  match b with
  | [] => ""
  | x :: rest =>
      let n := Byte.to_nat x in
      String (hexDigit (n / 16)) (String (hexDigit (n mod 16)) (hexOfBytes rest))
  end.

Definition pdfBytes : list Byte.byte :=
  [Byte.x25; Byte.x50; Byte.x44; Byte.x46; Byte.x2d; Byte.x31].

Definition otherBytes : list Byte.byte :=
  [Byte.x25; Byte.x50; Byte.x44; Byte.x46; Byte.x2d; Byte.x32].

(** Three files: two PDF files with the same bytes under different names and
    a third one with other bytes; every other path is absent. *)
Definition files (path : string) : JsError + list Byte.byte :=
  if String.eqb path "/watch/paper.pdf" then inr pdfBytes
  else if String.eqb path "/watch/sub/copy.pdf" then inr pdfBytes
  else if String.eqb path "/watch/other.pdf" then inr otherBytes
  else inl "ENOENT".

Definition sizes (path : string) : JsError + Z :=
  match files path with
  | inl e => inl e
  | inr b => inr (Z.of_nat (List.length b))
  end.

(** The collaborators, given the faults of the database and the outcomes of
    the remote sync call; the queue never fails. *)
Definition env (dbf : nat -> option JsError)
    (sync : nat -> JsError + SyncResult) : Env :=
  {| readFile := files;
     statSize := sizes;
     md5hex := hexOfBytes;
     clock := fun k => 1000 + Z.of_nat k;
     dbFault := dbf;
     dbNow := fun k => 500 + Z.of_nat k;
     dbRandomUuid := fun _ => "00000000-0000-4000-8000-000000000000";
     taskFault := fun _ => None;
     syncGoogleDriveChanges := sync |}.

Definition failure (k : nat) : JsError :=
  "ECONNRESET #" +++ Js.showZ (Z.of_nat k).

Definition alwaysFails (k : nat) : JsError + SyncResult := inl (failure k).

Definition failsTwice (result : SyncResult) (k : nat) : JsError + SyncResult :=
  if (k <? 2)%nat then alwaysFails k else inr result.

(** A database that never fails, and a remote end that always does. *)
Definition quiet : Env := env (fun _ => None) alwaysFails.

(** An unreachable database. *)
Definition dbDown : Env := env (fun _ => Some "ECONNREFUSED") alwaysFails.

(** A database that answers queries and loses its connection at the second
    statement. *)
Definition writeRejected : Env :=
  env (fun k => if (k =? 1)%nat then Some "ECONNRESET" else None) alwaysFails.

Definition emptyWorld : World :=
  {| db := []; tasks := []; trace := [];
     clockReads := 0; dbCalls := 0; taskCalls := 0; syncCalls := 0 |}.

(** A row for the bytes of [/watch/paper.pdf], as another writer of the
    table stores it. *)
Definition paperRow : FileMetadata :=
  {| id := "7d9c4a52-3f0e-4b6a-9c1d-2e8f5a7b6c40";
     hash := "255044462d31";
     fileName := "paper.pdf";
     fileSize := Some 6;
     createdAt := 501;
     modifiedAt := 1000;
     tags := None |}.

(** A world in which that row is stored. *)
Definition afterPaper : World :=
  {| db := [paperRow]; tasks := []; trace := [];
     clockReads := 0; dbCalls := 0; taskCalls := 0; syncCalls := 0 |}.

End Demo.

(* ===================================================================== *)
(** ** Observations on a trace *)
(* ===================================================================== *)

(** The number of calls of the remote sync operation recorded in a trace. *)
Fixpoint syncCount (tr : list Effect) : nat :=
  match tr with
  | [] => 0
  | ESync :: rest => S (syncCount rest)
  | _ :: rest => syncCount rest
  end.

(** The delays handed to the timer, in order; a delay of at most
    [Js.maxTimerDelay] is the time waited. *)
Fixpoint sleeps (tr : list Effect) : list Z :=
  match tr with
  | [] => []
  | ESleep ms :: rest => ms :: sleeps rest
  | _ :: rest => sleeps rest
  end.

(** The file-system calls recorded in a trace. *)
Fixpoint fsCalls (tr : list Effect) : list string :=
  match tr with
  | [] => []
  | EReadFile p :: rest => p :: fsCalls rest
  | EStat p :: rest => p :: fsCalls rest
  | _ :: rest => fsCalls rest
  end.

(** The log entries written, in order. *)
Fixpoint logged (tr : list Effect) : list LogEntry :=
  match tr with
  | [] => []
  | ELog entry :: rest => entry :: logged rest
  | _ :: rest => logged rest
  end.

(* ===================================================================== *)
(** ** Vocabulary of the statements *)
(* ===================================================================== *)

(** The identifier of line 142. *)
Definition localId (h : string) : string := "local_" +++ Js.slice0 8 h.

(** The statement of lines 145-164, with the identifier of line 142, as a
    function on the table. *)
Definition upsertStatement (freshId : string) (now : Z)
    (h name : string) (size valuesNow setNow : Z) (t : Table)
    : JsError + (Table * list FileMetadata) :=
  Db.insertOnConflictDoUpdate freshId now
    (insertValues (localId h) h name size valuesNow)
    (conflictSet (localId h) name size setNow) t.

(** The error [processLocalFile] logs when it ends in its [catch] clause. *)
Definition failedToProcess (filePath : string) (error : JsError) : LogEntry :=
  Error ("Failed to process local file " +++ filePath +++ ":") (Some error).

(** The calls of [runtime.createTask] recorded in a trace. *)
Fixpoint createTaskCalls (tr : list Effect) : list string :=
  match tr with
  | [] => []
  | ECreateTask name :: rest => name :: createTaskCalls rest
  | _ :: rest => createTaskCalls rest
  end.

(** A listener that cannot store a row: it is not about to create a task,
    and the statement it is about to send, if any, carries the identifier of
    line 142 in both places. *)
Definition cannotStore (l : Listener) : Prop :=
  match l with
  | AwaitInsert _ _ fileId values set =>
      (exists h, fileId = localId h)
      /\ n_id values = Some fileId /\ p_id set = Some fileId
  | AwaitCreateTask _ _ => False
  | _ => True
  end.

(* ===================================================================== *)
(** ** Further vocabulary *)
(* ===================================================================== *)

(** The sum of a list of delays. *)
Definition sumZ (l : list Z) : Z := fold_right Z.add 0 l.

(** The error a call outcome carries, if it is a failure. *)
Definition errorOf (r : JsError + SyncResult) : JsError :=
  match r with
  | inl e => e
  | inr _ => EmptyString
  end.

(* ===================================================================== *)
(** ** The plugin object and the process it runs in *)
(* ===================================================================== *)

(** The options passed to [chokidar.watch], lines 90-94. *)
Record WatchOptions := mkWatchOptions {
  persistent : bool;
  ignoreInitial : bool;
  ignored : list string
}.

(** A watcher as [chokidar.watch] returns it: what it watches, and whether
    [close] has been called on it. *)
Record FSWatcher := mkFSWatcher {
  watchedPath : string;
  watchOptions : WatchOptions;
  closed : bool
}.

(** [DriveConfig], lines 23-29; [localFolder] is optional. *)
Record DriveConfig := mkDriveConfig {
  clientId : string;
  clientSecret : string;
  redirectUri : string;
  refreshToken : string;
  localFolder : option string
}.

(** The fields of a [DrivePlugin] object its methods read and write:
    [this.config] and [this.watcher], the latter a reference to a watcher of
    the process.  The Drive client built by the constructor is used by no
    method of the class. *)
Record DrivePlugin := mkDrivePlugin {
  config : DriveConfig;
  watcher : option nat
}.

(** The process: the world of the runtime, the lines written with
    [console.log] and the watchers created so far (a watcher is referred to
    by its position). *)
Record Process := mkProcess {
  world : World;
  console : list string;
  watchers : list FSWatcher
}.

Definition withWorld (p : Process) (w : World) : Process :=
  {| world := w; console := console p; watchers := watchers p |}.

Module Plugin.

(** [new DrivePlugin(config)], lines 44-53. *)
Definition new (cfg : DriveConfig) : DrivePlugin :=
  {| config := cfg; watcher := None |}.

(** The options at lines 90-94. *)
Definition localWatchOptions : WatchOptions :=
  {| persistent := true;
     ignoreInitial := false;
     ignored := ["**/*.tmp"; "**/*.crdownload"] |}.

(** [watcher.close()]: the watcher at position [i] is closed. *)
Fixpoint closeAt (i : nat) (ws : list FSWatcher) : list FSWatcher :=
  match ws, i with
  | [], _ => []
  | x :: rest, O =>
      {| watchedPath := watchedPath x; watchOptions := watchOptions x;
         closed := true |} :: rest
  | x :: rest, S i' => x :: closeAt i' rest
  end.

Section Methods.

Variable E : Env.

(** [startLocalMonitoring], lines 89-119, on the object: a new watcher is
    created and assigned to [this.watcher], its listeners are registered and
    the start is logged. *)
Definition startLocalMonitoring (this : DrivePlugin) (folderPath : string)
    (p : Process) : DrivePlugin * Process :=
  let created :=
    {| watchedPath := folderPath; watchOptions := localWatchOptions;
       closed := false |} in
  let this' :=
    {| config := config this;
       watcher := Some (List.length (watchers p)) |} in
  let w' := snd (startLocalMonitoring E folderPath (world p)) in
  (this',
   {| world := w'; console := console p;
      watchers := watchers p ++ [created] |}).

(** [stop()], lines 186-191. *)
Definition stop (this : DrivePlugin) (p : Process) : Process :=
  match watcher this with
  | Some i =>
      let w' := snd (logger.info "Stopped local folder monitoring" (world p)) in
      {| world := w'; console := console p;
         watchers := closeAt i (watchers p) |}
  | None => p
  end.

(** [init(_config, runtime)], lines 55-65.  [None] only when the retry loop
    runs out of fuel. *)
Definition init (this : DrivePlugin) (p : Process)
    : option (Completion unit * DrivePlugin * Process) :=
  let p1 :=
    {| world := world p;
       console := console p ++ ["DrivePlugin initialized"];
       watchers := watchers p |} in
  match syncWithRetry E None (world p1) with
  | None => None
  | Some (Throw e, w') => Some (Throw e, this, withWorld p1 w')
  | Some (Normal _, w') =>
      match localFolder (config this) with
      | Some (String c rest) =>
          let (this', p') :=
            startLocalMonitoring this (String c rest) (withWorld p1 w') in
          Some (Normal tt, this', p')
      | _ => Some (Normal tt, this, withWorld p1 w')
      end
  end.

End Methods.

End Plugin.

(* ===================================================================== *)
(** ** Further concrete collaborators *)
(* ===================================================================== *)

Module Fixtures.

(** A remote end that fails twice and then answers. *)
Definition recovering : Env :=
  Demo.env (fun _ => None) (Demo.failsTwice "[1]").

Definition failureAt (k : nat) : JsError := Demo.failure (k + 0).

Definition driveConfig (folder : option string) : DriveConfig :=
  {| clientId := "client";
     clientSecret := "secret";
     redirectUri := "http://localhost/callback";
     refreshToken := "token";
     localFolder := folder |}.

Definition emptyProcess : Process :=
  {| world := Demo.emptyWorld; console := []; watchers := [] |}.

End Fixtures.

(* ===================================================================== *)
(** ** The arXiv plugin: [src/plugins/arxiv.ts] *)
(* ===================================================================== *)

(** Text is a sequence of 8-bit code units.  Of the line terminators a dot
    of a regular expression refuses, and of the white space [trim] removes,
    those that are such code units are modelled. *)
Module ArXiv.

(** [ArXivResult], lines 16-20. *)
Record ArXivResult := mkArXivResult {
  a_id : string;
  a_title : string;
  a_summary : string
}.

Inductive ConsoleLine :=
| ConsoleLog (msg : string)
| ConsoleError (msg : string) (error : JsError).

Definition LF : ascii := "010"%char.
Definition CR : ascii := "013"%char.

(** What [.] does not match. *)
Definition isLineTerminator (c : ascii) : bool :=
  Ascii.eqb c LF || Ascii.eqb c CR.

(** What [trim] removes: tab, line feed, vertical tab, form feed, carriage
    return, space and no-break space. *)
Definition isWhiteSpace (c : ascii) : bool :=
  let n := nat_of_ascii c in
  ((9 <=? n) && (n <=? 13) || (n =? 32) || (n =? 160))%nat.

(** The string without its first [n] characters. *)
Fixpoint drop (n : nat) (s : string) : string :=
  match n, s with
  | O, _ => s
  | S n', String _ s' => drop n' s'
  | S _, EmptyString => EmptyString
  end.

(** The first occurrence of [pat]: the text before it and the text after
    it.  This is how [[\s\S]*?] followed by [pat] matches. *)
Fixpoint cut (pat s : string) : option (string * string) :=
  if prefix pat s then Some (EmptyString, drop (String.length pat) s)
  else match s with
       | EmptyString => None
       | String c s' =>
           match cut pat s' with
           | Some (before, after) => Some (String c before, after)
           | None => None
           end
       end.

(** [(.*?)] followed by [close], tried at the start of [s]: the shortest run
    of characters other than line terminators after which [close] stands. *)
Fixpoint lazyDots (close s : string) : option string :=
  if prefix close s then Some EmptyString
  else match s with
       | EmptyString => None
       | String c s' =>
           if isLineTerminator c then None
           else match lazyDots close s' with
                | Some captured => Some (String c captured)
                | None => None
                end
       end.

(** [s.match(/open(.*?)close/)]: the group captured by the leftmost match. *)
Fixpoint matchTag (open close s : string) : option string :=
  match (if prefix open s
         then lazyDots close (drop (String.length open) s)
         else None) with
  | Some captured => Some captured
  | None =>
      match s with
      | EmptyString => None
      | String _ s' => matchTag open close s'
      end
  end.

(** [xml.match(/<entry>[\s\S]*?<\/entry>/g) || []], with fuel for the
    matches found. *)
Fixpoint matchEntries (fuel : nat) (xml : string) : list string :=
  match fuel with
  | O => []
  | S fuel' =>
      match cut "<entry>" xml with
      | None => []
      | Some (_, afterOpen) =>
          match cut "</entry>" afterOpen with
          | None => []
          | Some (body, rest) =>
              ("<entry>" +++ body +++ "</entry>") :: matchEntries fuel' rest
          end
      end
  end.

(** Every match takes characters of the text: its length is fuel enough. *)
Definition entriesOf (xml : string) : list string :=
  matchEntries (String.length xml) xml.

(** [s.replace(/(\r\n|\n|\r)/gm, ' ')] *)
Fixpoint replaceNewlines (s : string) : string :=
  match s with
  | EmptyString => EmptyString
  | String c s' =>
      if Ascii.eqb c CR then
        match s' with
        | String c2 s'' =>
            if Ascii.eqb c2 LF then String " " (replaceNewlines s'')
            else String " " (replaceNewlines s')
        | EmptyString => String " " EmptyString
        end
      else if Ascii.eqb c LF then String " " (replaceNewlines s')
      else String c (replaceNewlines s')
  end.

Fixpoint trimStart (s : string) : string :=
  match s with
  | EmptyString => EmptyString
  | String c s' => if isWhiteSpace c then trimStart s' else s
  end.

Fixpoint trimEnd (s : string) : string :=
  match s with
  | EmptyString => EmptyString
  | String c s' =>
      match trimEnd s' with
      | EmptyString => if isWhiteSpace c then EmptyString else String c EmptyString
      | t => String c t
      end
  end.

(** [s.trim()] *)
Definition trim (s : string) : string := trimEnd (trimStart s).

(** The callback of [entries.map], lines 48-57. *)
Definition parseEntry (entry : string) : ArXivResult :=
  let idMatch := matchTag "<id>" "</id>" entry in
  let titleMatch := matchTag "<title>" "</title>" entry in
  let summaryMatch := matchTag "<summary>" "</summary>" entry in
  {| a_id := match idMatch with Some x => x | None => "unknown" end;
     a_title := match titleMatch with Some x => x | None => "No title" end;
     a_summary :=
       match summaryMatch with
       | Some x => trim (replaceNewlines x)
       | None => "No summary"
       end |}.

Definition hexUpper (n : nat) : ascii :=
  match n with
  | 0 => "0" | 1 => "1" | 2 => "2" | 3 => "3" | 4 => "4" | 5 => "5"
  | 6 => "6" | 7 => "7" | 8 => "8" | 9 => "9" | 10 => "A" | 11 => "B"
  | 12 => "C" | 13 => "D" | 14 => "E" | _ => "F"
  end%nat%char.

(** [%XX] for a byte. *)
Definition percent (b : nat) : string :=
  String "%" (String (hexUpper (b / 16)) (String (hexUpper (b mod 16)) EmptyString)).

(** The characters [encodeURIComponent] leaves as they are: letters, digits
    and [- _ . ! ~ * ' ( )]. *)
Definition isUnreserved (c : ascii) : bool :=
  let n := nat_of_ascii c in
  ((65 <=? n) && (n <=? 90) || (97 <=? n) && (n <=? 122)
   || (48 <=? n) && (n <=? 57)
   || (n =? 45) || (n =? 95) || (n =? 46) || (n =? 33) || (n =? 126)
   || (n =? 42) || (n =? 39) || (n =? 40) || (n =? 41))%nat.

(** One code unit, escaped as the bytes of its UTF-8 encoding. *)
Definition encodeChar (c : ascii) : string :=
  if isUnreserved c then String c EmptyString
  else
    let n := nat_of_ascii c in
    if (n <? 128)%nat then percent n
    else percent (192 + n / 64) +++ percent (128 + n mod 64).

(** [encodeURIComponent(s)] *)
Fixpoint encodeURIComponent (s : string) : string :=
  match s with
  | EmptyString => EmptyString
  | String c s' => encodeChar c +++ encodeURIComponent s'
  end.

(** The address fetched at lines 39-43. *)
Definition searchUrl (query : string) (maxResults : Z) : string :=
  "http://export.arxiv.org/api/query?search_query="
    +++ encodeURIComponent query
    +++ "&max_results=" +++ Js.showZ maxResults
    +++ "&sortBy=relevance&sortOrder=descending".

(** [search(query, maxResults = 10)], lines 36-65: the results and what is
    written to the console.  [fetchText url] is [fetch(url)] followed by
    [response.text()]: the text of the response, or the error either of the
    two throws. *)
Definition search (fetchText : string -> JsError + string)
    (query : string) (maxResults : option Z)
    : list ArXivResult * list ConsoleLine :=
  match fetchText (searchUrl query (Js.orDefault maxResults 10)) with
  | inr xml =>
      let entries := entriesOf xml in
      let results := map parseEntry entries in
      (results,
       [ConsoleLog ("Found " +++ Js.showZ (Z.of_nat (List.length results))
                      +++ " arXiv papers for query: " +++ query)])
  | inl error => ([], [ConsoleError "arXiv search failed:" error])
  end.

(** An entry of a feed written on one line, from its three fields. *)
Definition renderBody (r : ArXivResult) : string :=
  "<id>" +++ a_id r +++ "</id>"
    +++ "<title>" +++ a_title r +++ "</title>"
    +++ "<summary>" +++ a_summary r +++ "</summary>".

Definition renderEntry (r : ArXivResult) : string :=
  "<entry>" +++ renderBody r +++ "</entry>".

(** A feed with these entries. *)
Fixpoint renderEntries (rs : list ArXivResult) : string :=
  match rs with
  | [] => EmptyString
  | r :: rest => renderEntry r +++ renderEntries rest
  end.

(** Neither [<] nor a line terminator occurs in the text. *)
Fixpoint plain (s : string) : bool :=
  match s with
  | EmptyString => true
  | String c s' =>
      negb (Ascii.eqb c "<"%char) && negb (isLineTerminator c) && plain s'
  end.

(** The three fields of a result are plain. *)
Definition plainFields (r : ArXivResult) : bool :=
  plain (a_id r) && plain (a_title r) && plain (a_summary r).

(** No line terminator occurs in the text. *)
Fixpoint oneLine (s : string) : bool :=
  match s with
  | EmptyString => true
  | String c s' => negb (isLineTerminator c) && oneLine s'
  end.

End ArXiv.

(** Vocabulary for scanning text. *)
Module Scan.

(** [pat] and [t] differ at a position both have. *)
Fixpoint mismatch (pat t : string) : bool :=
  match pat, t with
  | String a pat', String b t' =>
      if Ascii.eqb a b then mismatch pat' t' else true
  | _, _ => false
  end.

(** [pat] cannot begin anywhere inside [t], whatever follows [t]. *)
Fixpoint apart (pat t : string) : bool :=
  match t with
  | EmptyString => true
  | String _ t' => mismatch pat t && apart pat t'
  end.

(** Every character of the text satisfies [ok]. *)
Fixpoint allChars (ok : ascii -> bool) (s : string) : bool :=
  match s with
  | EmptyString => true
  | String c s' => ok c && allChars ok s'
  end.

End Scan.

Module FeedFixtures.

Definition paper1 : ArXiv.ArXivResult :=
  {| ArXiv.a_id := "http://arxiv.org/abs/2501.00001v1";
     ArXiv.a_title := "On retries";
     ArXiv.a_summary := "  We study backoff.  " |}.

Definition paper2 : ArXiv.ArXivResult :=
  {| ArXiv.a_id := "http://arxiv.org/abs/2501.00002v2";
     ArXiv.a_title := "";
     ArXiv.a_summary := "Short" |}.

(** A server that answers every request with the two papers. *)
Definition twoPapers (url : string) : JsError + string :=
  inr (ArXiv.renderEntries [paper1; paper2] +++ "</feed>").

End FeedFixtures.


(* ===================================================================== *)
(** ** Paths and file names *)
(* ===================================================================== *)

Module JsFacts.

Lemma length_append s1 s2 :
  String.length (s1 +++ s2) = (String.length s1 + String.length s2)%nat.
Proof.
  induction s1 as [| c s1 IH]; cbn; [reflexivity | rewrite IH; reflexivity].
Qed.

Lemma substring_all s : substring 0 (String.length s) s = s.
Proof.
  induction s as [| c s IH]; cbn; [reflexivity | rewrite IH; reflexivity].
Qed.

Lemma substring_cut s :
  forall k, (k <= String.length s)%nat ->
    s = substring 0 k s +++ substring k (String.length s - k) s.
Proof.
  induction s as [| c s IH]; intros k Hk.
  - cbn in Hk. assert (k = 0%nat) by lia. subst k. reflexivity.
  - destruct k as [| k].
    + cbn [substring String.append String.length Nat.sub].
      rewrite substring_all. reflexivity.
    + cbn [substring String.append String.length Nat.sub].
      cbn in Hk. rewrite <- IH by lia. reflexivity.
Qed.

Lemma substring_skip pre s :
  substring (String.length pre) (String.length s) (pre +++ s) = s.
Proof.
  induction pre as [| c pre IH]; cbn [String.length String.append substring].
  - apply substring_all.
  - exact IH.
Qed.

(** [endsWith] holds exactly of the strings that are something followed by
    the suffix. *)
Lemma endsWith_elim s suffix :
  Js.endsWith s suffix = true -> exists pre, s = pre +++ suffix.
Proof.
  unfold Js.endsWith. intros H.
  apply andb_true_iff in H. destruct H as [Hle Heq].
  apply Nat.leb_le in Hle. apply String.eqb_eq in Heq.
  exists (substring 0 (String.length s - String.length suffix) s).
  pose proof (substring_cut s (String.length s - String.length suffix))
    as Hcut.
  replace (String.length s - (String.length s - String.length suffix))%nat
    with (String.length suffix) in Hcut by lia.
  rewrite Heq in Hcut. apply Hcut. lia.
Qed.

Lemma endsWith_intro pre suffix : Js.endsWith (pre +++ suffix) suffix = true.
Proof.
  unfold Js.endsWith. rewrite length_append.
  apply andb_true_iff. split.
  - apply Nat.leb_le. lia.
  - replace (String.length pre + String.length suffix - String.length suffix)%nat
      with (String.length pre) by lia.
    rewrite substring_skip. apply String.eqb_refl.
Qed.

Lemma split_nonempty s : Js.split s <> [].
Proof.
  destruct s as [| c s]; cbn; [discriminate |].
  destruct (Js.isSep c); [discriminate |].
  destruct (Js.split s); discriminate.
Qed.

Lemma split_noSep s : Js.noSep s = true -> Js.split s = [s].
Proof.
  induction s as [| c s IH]; cbn; [reflexivity |].
  intros H. apply andb_true_iff in H. destruct H as [Hc Hs].
  apply negb_true_iff in Hc. rewrite Hc, (IH Hs). reflexivity.
Qed.

(** Appending text without separators extends the last piece. *)
Lemma split_append pre suffix :
  Js.noSep suffix = true ->
  Js.split (pre +++ suffix)
  = removelast (Js.split pre) ++ [Js.pop (Js.split pre) +++ suffix].
Proof.
  intros Hs. unfold Js.pop.
  induction pre as [| c pre IH].
  - cbn. apply split_noSep. exact Hs.
  - cbn [String.append Js.split]. rewrite IH.
    pose proof (split_nonempty pre) as Hne.
    destruct (Js.split pre) as [| x [| y l]]; [congruence | |];
      destruct (Js.isSep c); reflexivity.
Qed.

Lemma pop_split_append pre suffix :
  Js.noSep suffix = true ->
  Js.pop (Js.split (pre +++ suffix)) = Js.pop (Js.split pre) +++ suffix.
Proof.
  intros Hs. rewrite (split_append pre suffix Hs).
  unfold Js.pop at 1. apply last_last.
Qed.

(** A path that ends in [.pdf] names a file that ends in [.pdf]: the test the
    listeners make on the path is a test on the file name. *)
Lemma fileNameOf_pdf path :
  Js.endsWith path ".pdf" = true ->
  Js.endsWith (fileNameOf path) ".pdf" = true.
Proof.
  intros H. apply endsWith_elim in H. destruct H as [pre ->].
  unfold fileNameOf. rewrite pop_split_append by reflexivity.
  destruct (Js.pop (Js.split pre)) as [| c x].
  - reflexivity.
  - cbn [String.append Js.orElse].
    change (String c (x +++ ".pdf")) with (String c x +++ ".pdf").
    apply endsWith_intro.
Qed.

Lemma append_assoc s1 s2 s3 : (s1 +++ s2) +++ s3 = s1 +++ (s2 +++ s3).
Proof.
  induction s1 as [| c s1 IH]; cbn; [reflexivity | rewrite IH; reflexivity].
Qed.

Lemma split_single s x : Js.split s = [x] -> s = x.
Proof.
  revert x. induction s as [| c s IH]; intros x; cbn.
  - intros H. injection H as <-. reflexivity.
  - pose proof (split_nonempty s) as Hne.
    destruct (Js.isSep c).
    + destruct (Js.split s); [congruence | discriminate].
    + destruct (Js.split s) as [| y [| z l]] eqn:Hs; [congruence | |].
      * intros H. injection H as <-. rewrite (IH y eq_refl). reflexivity.
      * discriminate.
Qed.

(** The last piece of a path is its end. *)
Lemma pop_split_suffix s : exists q, s = q +++ Js.pop (Js.split s).
Proof.
  unfold Js.pop.
  induction s as [| c s [q IH]]; [exists EmptyString; reflexivity |].
  pose proof (split_nonempty s) as Hne.
  cbn [Js.split]. destruct (Js.isSep c).
  - exists (String c q).
    destruct (Js.split s) as [| y l] eqn:Hs; [congruence |].
    cbn [String.append]. rewrite IH at 1. reflexivity.
  - destruct (Js.split s) as [| y [| z l]] eqn:Hs; [congruence | |].
    + exists EmptyString. cbn. rewrite (split_single s y Hs). reflexivity.
    + exists (String c q).
      cbn [String.append]. rewrite IH at 1. reflexivity.
Qed.

(** The test the listeners make on the path is a test on the file name. *)
Lemma endsWith_fileNameOf path :
  Js.endsWith (fileNameOf path) ".pdf" = Js.endsWith path ".pdf".
Proof.
  destruct (Js.endsWith path ".pdf") eqn:Hpath.
  - apply fileNameOf_pdf. exact Hpath.
  - destruct (Js.endsWith (fileNameOf path) ".pdf") eqn:Hname; [| reflexivity].
    rewrite <- Hpath.
    unfold fileNameOf in Hname.
    destruct (pop_split_suffix path) as [q Hq].
    destruct (Js.pop (Js.split path)) as [| c x] eqn:Hpop.
    + discriminate Hname.
    + cbn [Js.orElse] in Hname.
      apply endsWith_elim in Hname. destruct Hname as [pre Hpre].
      rewrite Hq, Hpre, <- append_assoc.
      symmetry. apply endsWith_intro.
Qed.

End JsFacts.

(* ===================================================================== *)
(** ** Facts about traces and the table *)
(* ===================================================================== *)

Lemma fsCalls_app tr1 tr2 : fsCalls (tr1 ++ tr2) = fsCalls tr1 ++ fsCalls tr2.
Proof.
  induction tr1 as [| e tr1 IH]; [reflexivity |].
  destruct e; cbn; rewrite ?IH; reflexivity.
Qed.

Lemma logged_app tr1 tr2 : logged (tr1 ++ tr2) = logged tr1 ++ logged tr2.
Proof.
  induction tr1 as [| e tr1 IH]; [reflexivity |].
  destruct e; cbn; rewrite ?IH; reflexivity.
Qed.

Module DbFacts.

Lemma selectByHash_nil h t :
  Db.selectByHash h t = [] <-> ~ In h (map hash t).
Proof.
  unfold Db.selectByHash. split.
  - intros Hnil Hin. apply in_map_iff in Hin. destruct Hin as [r [Hr Hin]].
    assert (Hf : In r (filter (fun r => String.eqb (hash r) h) t)).
    { apply filter_In. split; [exact Hin |]. apply String.eqb_eq. exact Hr. }
    rewrite Hnil in Hf. exact Hf.
  - intros Hnot.
    induction t as [| r t IH]; [reflexivity |].
    cbn. destruct (String.eqb (hash r) h) eqn:Heq.
    + apply String.eqb_eq in Heq. exfalso. apply Hnot. left. exact Heq.
    + apply IH. intros Hin. apply Hnot. right. exact Hin.
Qed.

End DbFacts.

(* ===================================================================== *)
(** ** The retry loop *)
(* ===================================================================== *)

Section RetryFacts.

Variable E : Env.

Lemma retryBody_success maxRetries attempts w result :
  syncGoogleDriveChanges E (syncCalls w) = inr result ->
  retryBody E maxRetries attempts w =
    (Normal None,
     {| db := db w; tasks := tasks w;
        trace := (trace w ++ [ESync])
                   ++ [ELog (Info ("Drive sync completed: " +++ result))];
        clockReads := clockReads w; dbCalls := dbCalls w;
        taskCalls := taskCalls w; syncCalls := S (syncCalls w) |}).
Proof.
  intros Hs.
  unfold retryBody, tryCatch, bind, callSync, emit, logger.info, ret; cbn.
  rewrite Hs; reflexivity.
Qed.

Lemma retryBody_last_failure maxRetries attempts w e :
  syncGoogleDriveChanges E (syncCalls w) = inl e ->
  attempts + 1 = maxRetries ->
  retryBody E maxRetries attempts w =
    (Throw e,
     {| db := db w; tasks := tasks w;
        trace := ((trace w ++ [ESync])
                    ++ [ELog (Error ("Drive sync attempt "
                                       +++ Js.showZ (attempts + 1)
                                       +++ " failed:") (Some e))])
                   ++ [ELog (Error "Max retries reached, sync failed" None)];
        clockReads := clockReads w; dbCalls := dbCalls w;
        taskCalls := taskCalls w; syncCalls := S (syncCalls w) |}).
Proof.
  intros Hs Hm.
  unfold retryBody, tryCatch, bind, callSync, emit, logger.error, sleep; cbn.
  rewrite Hs; cbn.
  apply Z.eqb_eq in Hm; rewrite Hm; reflexivity.
Qed.

Lemma retryBody_failure maxRetries attempts w e :
  syncGoogleDriveChanges E (syncCalls w) = inl e ->
  attempts + 1 <> maxRetries ->
  retryBody E maxRetries attempts w =
    (Normal (Some (attempts + 1)),
     {| db := db w; tasks := tasks w;
        trace := ((trace w ++ [ESync])
                    ++ [ELog (Error ("Drive sync attempt "
                                       +++ Js.showZ (attempts + 1)
                                       +++ " failed:") (Some e))])
                   ++ [ESleep (1000 * Js.pow2 (attempts + 1))];
        clockReads := clockReads w; dbCalls := dbCalls w;
        taskCalls := taskCalls w; syncCalls := S (syncCalls w) |}).
Proof.
  intros Hs Hm.
  unfold retryBody, tryCatch, bind, callSync, emit, logger.error, sleep; cbn.
  rewrite Hs; cbn.
  apply Z.eqb_neq in Hm; rewrite Hm; reflexivity.
Qed.

End RetryFacts.

Section RetryLoop.

Variable E : Env.

(** One turn of the loop returns, throws, or asks for another turn with
    [attempts] one higher and still different from [maxRetries]. *)
Lemma retryBody_cases maxRetries attempts w :
  exists w',
    retryBody E maxRetries attempts w = (Normal None, w')
    \/ (exists e, retryBody E maxRetries attempts w = (Throw e, w'))
    \/ (attempts + 1 <> maxRetries
        /\ retryBody E maxRetries attempts w
           = (Normal (Some (attempts + 1)), w')).
Proof.
  destruct (syncGoogleDriveChanges E (syncCalls w)) as [e | r] eqn:Hs.
  - destruct (Z.eq_dec (attempts + 1) maxRetries) as [Hm | Hm].
    + eexists; right; left; exists e.
      apply retryBody_last_failure; assumption.
    + eexists; right; right; split; [assumption |].
      eapply retryBody_failure; eassumption.
  - eexists; left. eapply retryBody_success; eassumption.
Qed.

(** The loop ends: fuel above the distance from [attempts] to [maxRetries]
    is never used up. *)
Lemma retryLoop_enough_fuel fuel :
  forall maxRetries attempts w,
    (Z.to_nat (maxRetries - attempts) < fuel)%nat ->
    exists r, retryLoop E fuel maxRetries attempts w = Some r.
Proof.
  induction fuel as [| fuel IH]; intros maxRetries attempts w Hfuel.
  - lia.
  - cbn [retryLoop].
    destruct (attempts <? maxRetries) eqn:Hlt; [| eexists; reflexivity].
    apply Z.ltb_lt in Hlt.
    destruct (retryBody_cases maxRetries attempts w)
      as [w' [H | [[e H] | [Hne H]]]]; rewrite H.
    + eexists; reflexivity.
    + eexists; reflexivity.
    + apply IH. lia.
Qed.

(** More fuel does not change the outcome. *)
Lemma retryLoop_fuel_mono fuel :
  forall fuel' maxRetries attempts w r,
    retryLoop E fuel maxRetries attempts w = Some r ->
    (fuel <= fuel')%nat ->
    retryLoop E fuel' maxRetries attempts w = Some r.
Proof.
  induction fuel as [| fuel IH]; intros fuel' maxRetries attempts w r H Hle.
  - discriminate.
  - destruct fuel' as [| fuel']; [lia |].
    cbn [retryLoop] in *.
    destruct (attempts <? maxRetries); [| assumption].
    destruct (retryBody E maxRetries attempts w) as [[[a |] | e] w'];
      try assumption.
    apply IH; [assumption | lia].
Qed.

(** [syncWithRetry] always ends, by returning or by throwing. *)
Lemma syncWithRetry_total maxRetries w :
  exists c w', syncWithRetry E maxRetries w = Some (c, w').
Proof.
  unfold syncWithRetry.
  destruct (retryLoop_enough_fuel
              (S (Z.to_nat (Js.orDefault maxRetries 3)))
              (Js.orDefault maxRetries 3) 0 w) as [[c w'] H].
  - rewrite Z.sub_0_r. lia.
  - exists c, w'. exact H.
Qed.

(** Leaving [maxRetries] out is passing 3. *)
Lemma syncWithRetry_default w :
  syncWithRetry E None w = syncWithRetry E (Some 3) w.
Proof. reflexivity. Qed.

End RetryLoop.

Lemma syncCount_app tr1 tr2 :
  syncCount (tr1 ++ tr2) = (syncCount tr1 + syncCount tr2)%nat.
Proof.
  induction tr1 as [| e tr1 IH]; [reflexivity |].
  destruct e; cbn; rewrite ?IH; reflexivity.
Qed.

Lemma sleeps_app tr1 tr2 : sleeps (tr1 ++ tr2) = sleeps tr1 ++ sleeps tr2.
Proof.
  induction tr1 as [| e tr1 IH]; [reflexivity |].
  destruct e; cbn; rewrite ?IH; reflexivity.
Qed.

Section RetryAlwaysFailing.

Variable E : Env.
Variable err : nat -> JsError.
Hypothesis always_fails : forall k, syncGoogleDriveChanges E k = inl (err k).

(** With [n + 1] attempts left and a sync call that always fails, the loop
    makes [n + 1] calls, waits [1000 * 2^a] after each failed attempt number
    [a] but the last, and throws the last error. *)
Lemma retryLoop_always_failing (n : nat) :
  forall fuel maxRetries attempts w,
    maxRetries - attempts = Z.of_nat (S n) ->
    (S n <= fuel)%nat ->
    exists w' delta,
      retryLoop E fuel maxRetries attempts w
      = Some (Throw (err (n + syncCalls w)%nat), w')
      /\ trace w' = trace w ++ delta
      /\ syncCount delta = S n
      /\ sleeps delta
         = map (fun i => 1000 * Js.pow2 (attempts + Z.of_nat i)) (seq 1 n)
      /\ syncCalls w' = (S n + syncCalls w)%nat.
Proof.
  induction n as [| n IH]; intros fuel maxRetries attempts w Hdist Hfuel;
    (destruct fuel as [| fuel]; [lia |]); cbn [retryLoop].
  - replace (attempts <? maxRetries) with true
      by (symmetry; apply Z.ltb_lt; lia).
    rewrite (retryBody_last_failure E maxRetries attempts w
               (err (syncCalls w))) by (auto; lia).
    eexists; eexists. split; [reflexivity |]. cbn [trace syncCalls].
    split; [repeat rewrite <- app_assoc; reflexivity |].
    repeat split; reflexivity.
  - replace (attempts <? maxRetries) with true
      by (symmetry; apply Z.ltb_lt; lia).
    rewrite (retryBody_failure E maxRetries attempts w (err (syncCalls w)))
      by (auto; lia).
    match goal with
    | |- context [retryLoop E fuel maxRetries (attempts + 1) ?w1] =>
        destruct (IH fuel maxRetries (attempts + 1) w1)
          as [w' [delta [Hrun [Htrace [Hcount [Hsleeps Hcalls]]]]]];
          [lia | lia |]
    end.
    cbn [trace syncCalls] in *.
    exists w'.
    exists ([ESync;
             ELog (Error ("Drive sync attempt " +++ Js.showZ (attempts + 1)
                            +++ " failed:") (Some (err (syncCalls w))));
             ESleep (1000 * Js.pow2 (attempts + 1))] ++ delta).
    split; [replace (S n + syncCalls w)%nat with (n + S (syncCalls w))%nat
              by lia; exact Hrun |].
    split; [rewrite Htrace; repeat rewrite <- app_assoc; reflexivity |].
    split; [rewrite syncCount_app, Hcount; reflexivity |].
    split; [| rewrite Hcalls; lia].
    rewrite sleeps_app, Hsleeps. cbn [sleeps app seq map].
    change (Z.of_nat 1) with 1. f_equal.
    rewrite <- (seq_shift n 1), map_map. apply map_ext. intros i.
    replace (attempts + Z.of_nat (S i)) with (attempts + 1 + Z.of_nat i)
      by lia.
    reflexivity.
Qed.

(** The bound for any positive number of attempts. *)
Lemma syncWithRetry_always_failing_any (n : nat) w :
  exists w' delta,
    syncWithRetry E (Some (Z.of_nat (S n))) w
    = Some (Throw (err (n + syncCalls w)%nat), w')
    /\ trace w' = trace w ++ delta
    /\ syncCount delta = S n
    /\ sleeps delta = map (fun i => 1000 * 2 ^ Z.of_nat i) (seq 1 n)
    /\ syncCalls w' = (S n + syncCalls w)%nat.
Proof.
  unfold syncWithRetry. cbn [Js.orDefault].
  destruct (retryLoop_always_failing n
              (S (Z.to_nat (Z.of_nat (S n)))) (Z.of_nat (S n)) 0 w)
    as [w' [delta [Hrun [Htrace [Hcount [Hsleeps Hcalls]]]]]]; [lia | lia |].
  exists w', delta. repeat split; try assumption.
Qed.

End RetryAlwaysFailing.

Section RetryClaims.

Variable E : Env.

(** C3 (retry bound).  When the remote sync call fails on every invocation,
    [syncWithRetry] with [maxRetries = 3] calls it exactly three times, waits
    [1000 * 2^1 = 2000] ms after attempt 1 and [1000 * 2^2 = 4000] ms after
    attempt 2 (so at least 1000 ms and at least 2000 ms), and then throws the
    error of the third call; after the third failure it does not wait. *)
Theorem syncWithRetry_always_failing (err : nat -> JsError) (w : World) :
  (forall k, syncGoogleDriveChanges E k = inl (err k)) ->
  exists w' delta,
    syncWithRetry E (Some 3) w = Some (Throw (err (2 + syncCalls w)%nat), w')
    /\ trace w' = trace w ++ delta
    /\ delta =
         [ESync;
          ELog (Error "Drive sync attempt 1 failed:" (Some (err (syncCalls w))));
          ESleep 2000;
          ESync;
          ELog (Error "Drive sync attempt 2 failed:"
                      (Some (err (1 + syncCalls w)%nat)));
          ESleep 4000;
          ESync;
          ELog (Error "Drive sync attempt 3 failed:"
                      (Some (err (2 + syncCalls w)%nat)));
          ELog (Error "Max retries reached, sync failed" None)]
    /\ syncCount delta = 3%nat
    /\ syncCalls w' = (3 + syncCalls w)%nat
    /\ sleeps delta = [1000 * 2 ^ 1; 1000 * 2 ^ 2]
    /\ Forall2 Z.le [1000; 2000] (sleeps delta).
Proof.
  intros Hfail.
  unfold syncWithRetry; cbn [Js.orDefault].
  change (Z.to_nat 3) with 3%nat.
  cbn [retryLoop]. change (0 <? 3) with true. cbv iota.
  rewrite (retryBody_failure E 3 0 w (err (syncCalls w)));
    [| apply Hfail | discriminate].
  change (0 + 1) with 1. change (1 <? 3) with true. cbv iota.
  rewrite (retryBody_failure E 3 1 _ (err (1 + syncCalls w)%nat));
    [| apply Hfail | discriminate].
  change (1 + 1) with 2. change (2 <? 3) with true. cbv iota.
  rewrite (retryBody_last_failure E 3 2 _ (err (2 + syncCalls w)%nat));
    [| apply Hfail | reflexivity].
  eexists; eexists.
  split; [reflexivity |].
  cbn [trace syncCalls].
  split; [| split; [reflexivity |]].
  - repeat rewrite <- app_assoc. reflexivity.
  - cbn. repeat split; try reflexivity.
    repeat constructor; discriminate.
Qed.

(** C4 (retry recovery), as the code has it.  When the remote sync call
    fails on its first two invocations and succeeds on the third,
    [syncWithRetry] with [maxRetries = 3] does not throw, makes no fourth call
    and returns normally.  It returns no value: the result of the third call
    is written to the log. *)
Theorem syncWithRetry_recovers (e1 e2 : JsError) (result : SyncResult)
    (w : World) :
  syncGoogleDriveChanges E (syncCalls w) = inl e1 ->
  syncGoogleDriveChanges E (1 + syncCalls w)%nat = inl e2 ->
  syncGoogleDriveChanges E (2 + syncCalls w)%nat = inr result ->
  exists w' delta,
    syncWithRetry E (Some 3) w = Some (Normal tt, w')
    /\ trace w' = trace w ++ delta
    /\ delta =
         [ESync;
          ELog (Error "Drive sync attempt 1 failed:" (Some e1));
          ESleep 2000;
          ESync;
          ELog (Error "Drive sync attempt 2 failed:" (Some e2));
          ESleep 4000;
          ESync;
          ELog (Info ("Drive sync completed: " +++ result))]
    /\ syncCount delta = 3%nat
    /\ syncCalls w' = (3 + syncCalls w)%nat
    /\ db w' = db w
    /\ tasks w' = tasks w.
Proof.
  intros H1 H2 H3.
  unfold syncWithRetry; cbn [Js.orDefault].
  change (Z.to_nat 3) with 3%nat.
  cbn [retryLoop]. change (0 <? 3) with true. cbv iota.
  rewrite (retryBody_failure E 3 0 w e1); [| exact H1 | discriminate].
  change (0 + 1) with 1. change (1 <? 3) with true. cbv iota.
  rewrite (retryBody_failure E 3 1 _ e2); [| exact H2 | discriminate].
  change (1 + 1) with 2. change (2 <? 3) with true. cbv iota.
  rewrite (retryBody_success E 3 2 _ result); [| exact H3].
  eexists; eexists.
  split; [reflexivity |].
  cbn [trace syncCalls db tasks].
  split; [| split; [reflexivity |]].
  - repeat rewrite <- app_assoc. reflexivity.
  - repeat split; reflexivity.
Qed.

(** C10 (no attempt allowed).  For [maxRetries <= 0] the loop body is never
    entered: [syncWithRetry] returns normally and leaves the world as it was,
    so the sync operation is not called and nothing is logged.  The
    completion is the one of a sync that succeeded at once. *)
Theorem syncWithRetry_nonpositive (maxRetries : Z) (w : World) :
  maxRetries <= 0 ->
  syncWithRetry E (Some maxRetries) w = Some (Normal tt, w)
  /\ (forall result,
        syncGoogleDriveChanges E (syncCalls w) = inr result ->
        option_map fst (syncWithRetry E (Some 1) w)
        = option_map fst (syncWithRetry E (Some maxRetries) w)).
Proof.
  intros Hle.
  assert (Hret : syncWithRetry E (Some maxRetries) w = Some (Normal tt, w)).
  { unfold syncWithRetry; cbn [Js.orDefault retryLoop].
    destruct (0 <? maxRetries) eqn:Hlt; [| reflexivity].
    apply Z.ltb_lt in Hlt. lia. }
  split; [exact Hret |].
  intros result Hs. rewrite Hret.
  unfold syncWithRetry; cbn [Js.orDefault].
  change (Z.to_nat 1) with 1%nat.
  cbn [retryLoop]. change (0 <? 1) with true. cbv iota.
  rewrite (retryBody_success E 1 0 w result Hs). reflexivity.
Qed.

End RetryClaims.

(* ===================================================================== *)
(** ** The per-file operation *)
(* ===================================================================== *)

Ltac run_plugin :=
  unfold processLocalFile, tryCatch, bind, fsReadFile, fsStatSize,
    dbSelectByHash, dbInsertOnConflictDoUpdate, dbRun, createTask, newDate,
    logger.info, logger.error, emit, liftResult, ret, throw;
  cbn [db tasks trace clockReads dbCalls taskCalls syncCalls fst snd].

Lemma createTaskCalls_app tr1 tr2 :
  createTaskCalls (tr1 ++ tr2) = createTaskCalls tr1 ++ createTaskCalls tr2.
Proof.
  induction tr1 as [| e tr1 IH]; [reflexivity |].
  destruct e; cbn; rewrite ?IH; reflexivity.
Qed.

(** The identifier of line 142 does not read as a [uuid]: its first
    character is no hexadecimal digit and no brace. *)
Lemma localId_is_no_uuid h : Pg.isUuid (localId h) = false.
Proof. reflexivity. Qed.

(** A statement that carries that identifier in [.values] is refused,
    whatever the table holds. *)
Lemma statement_refused freshId now h values set t :
  n_id values = Some (localId h) ->
  Db.insertOnConflictDoUpdate freshId now values set t
  = inl (Pg.invalidUuid (localId h)).
Proof.
  intros Hid. unfold Db.insertOnConflictDoUpdate, Db.typeError, Db.uuidError.
  rewrite Hid, localId_is_no_uuid. reflexivity.
Qed.

Section ProcessLocalFile.

Variable E : Env.

(** Content whose hash is already stored: the file is read, the table is
    queried, the skip is logged; table and queue stay as they were. *)
Lemma processLocalFile_known filePath bytes size w :
  readFile E filePath = inr bytes ->
  statSize E filePath = inr size ->
  dbFault E (dbCalls w) = None ->
  Db.selectByHash (md5hex E bytes) (db w) <> [] ->
  exists w',
    processLocalFile E filePath w = (Normal tt, w')
    /\ db w' = db w
    /\ tasks w' = tasks w
    /\ trace w' = trace w ++
         [EReadFile filePath; EStat filePath; ESelect (md5hex E bytes);
          ELog (Info ("Local file " +++ fileNameOf filePath
                        +++ " already exists, skipping"))]
    /\ clockReads w' = clockReads w
    /\ dbCalls w' = S (dbCalls w)
    /\ taskCalls w' = taskCalls w
    /\ syncCalls w' = syncCalls w.
Proof.
  intros Hread Hstat Hdb Hhit.
  run_plugin. rewrite Hread, Hstat. run_plugin. rewrite Hdb.
  destruct (Db.selectByHash (md5hex E bytes) (db w)) as [| r rs] eqn:Hsel;
    [congruence |].
  cbn. eexists. split; [reflexivity |]. cbn.
  repeat rewrite <- app_assoc. repeat split; reflexivity.
Qed.

(** New content, the database within reach: the statement is sent and
    refused for its identifier; the error is logged and neither a row nor a
    task appears. *)
Lemma processLocalFile_refused filePath bytes size w :
  readFile E filePath = inr bytes ->
  statSize E filePath = inr size ->
  dbFault E (dbCalls w) = None ->
  dbFault E (S (dbCalls w)) = None ->
  Db.selectByHash (md5hex E bytes) (db w) = [] ->
  exists w',
    processLocalFile E filePath w = (Normal tt, w')
    /\ db w' = db w
    /\ tasks w' = tasks w
    /\ trace w' = trace w ++
         [EReadFile filePath; EStat filePath; ESelect (md5hex E bytes);
          EInsert (md5hex E bytes);
          ELog (failedToProcess filePath
                  (Pg.invalidUuid (localId (md5hex E bytes))))]
    /\ clockReads w' = (2 + clockReads w)%nat
    /\ dbCalls w' = S (S (dbCalls w))
    /\ taskCalls w' = taskCalls w
    /\ syncCalls w' = syncCalls w.
Proof.
  intros Hread Hstat Hdb1 Hdb2 Hmiss.
  run_plugin. rewrite Hread, Hstat. run_plugin. rewrite Hdb1.
  rewrite Hmiss. cbn [List.length Nat.ltb Nat.leb].
  run_plugin. rewrite Hdb2.
  rewrite (statement_refused _ _ (md5hex E bytes)) by reflexivity.
  run_plugin.
  eexists. split; [reflexivity |]. cbn.
  repeat rewrite <- app_assoc. repeat split; reflexivity.
Qed.

(** The handler of the [catch] clause returns: [processLocalFile] never
    throws, whatever its collaborators do. *)
Lemma processLocalFile_returns filePath w :
  exists w', processLocalFile E filePath w = (Normal tt, w').
Proof.
  unfold processLocalFile, tryCatch.
  match goal with
  | |- context [match ?body w with _ => _ end] =>
      destruct (body w) as [[[] | e] w']
  end.
  - eexists; reflexivity.
  - unfold logger.error, emit. eexists; reflexivity.
Qed.

(** Whatever its collaborators do, a call of [processLocalFile] leaves the
    table and the queue as they were, and does not reach [createTask]. *)
Lemma processLocalFile_inert filePath w :
  db (snd (processLocalFile E filePath w)) = db w
  /\ tasks (snd (processLocalFile E filePath w)) = tasks w
  /\ taskCalls (snd (processLocalFile E filePath w)) = taskCalls w
  /\ createTaskCalls (trace (snd (processLocalFile E filePath w)))
     = createTaskCalls (trace w).
Proof.
  run_plugin.
  destruct (readFile E filePath) as [e | bytes]; run_plugin;
    [rewrite !createTaskCalls_app, !app_nil_r; repeat split; reflexivity |].
  destruct (statSize E filePath) as [e | size]; run_plugin;
    [rewrite !createTaskCalls_app, !app_nil_r; repeat split; reflexivity |].
  destruct (dbFault E (dbCalls w)) as [e |]; run_plugin;
    [rewrite !createTaskCalls_app, !app_nil_r; repeat split; reflexivity |].
  destruct (Db.selectByHash (md5hex E bytes) (db w)) as [| r rs];
    cbn [List.length Nat.ltb Nat.leb]; run_plugin;
    [| rewrite !createTaskCalls_app, !app_nil_r; repeat split; reflexivity].
  destruct (dbFault E (S (dbCalls w))) as [e |]; run_plugin;
    [rewrite !createTaskCalls_app, !app_nil_r; repeat split; reflexivity |].
  rewrite (statement_refused _ _ (md5hex E bytes)) by reflexivity.
  run_plugin.
  rewrite !createTaskCalls_app, !app_nil_r; repeat split; reflexivity.
Qed.

End ProcessLocalFile.

(* ===================================================================== *)
(** ** Listeners taking turns *)
(* ===================================================================== *)

Ltac run_turn :=
  unfold resume, turn, listen, onUnlink, onError; run_plugin; run_plugin.

Section EventLoopFacts.

Variable E : Env.

(** A turn of a listener that cannot store a row leaves it so, and leaves
    table and queue as they were. *)
Lemma resume_cannot_store l w :
  cannotStore l ->
  cannotStore (fst (resume E l w))
  /\ db (snd (resume E l w)) = db w
  /\ tasks (snd (resume E l w)) = tasks w
  /\ taskCalls (snd (resume E l w)) = taskCalls w
  /\ createTaskCalls (trace (snd (resume E l w)))
     = createTaskCalls (trace w).
Proof.
  destruct l as [filePath name | filePath name buffer | filePath name size h
                 | filePath name fileId values set | filePath task |];
    intros Hl.
  - run_turn.
    destruct (readFile E filePath) as [e | bytes]; run_plugin;
      rewrite !createTaskCalls_app, !app_nil_r; repeat split; reflexivity.
  - run_turn.
    destruct (statSize E filePath) as [e | sz]; run_plugin;
      rewrite !createTaskCalls_app, !app_nil_r; repeat split; reflexivity.
  - run_turn.
    destruct (dbFault E (dbCalls w)) as [e |]; run_plugin;
      [rewrite !createTaskCalls_app, !app_nil_r; repeat split; reflexivity |].
    destruct (Db.selectByHash h (db w)) as [| r rs];
      cbn [List.length Nat.ltb Nat.leb]; run_plugin;
      rewrite !createTaskCalls_app, !app_nil_r; repeat split;
      try reflexivity.
    exists h. reflexivity.
  - destruct Hl as [[h ->] [Hvalues Hset]].
    run_turn.
    destruct (dbFault E (dbCalls w)) as [e |]; run_plugin;
      [rewrite !createTaskCalls_app, !app_nil_r; repeat split; reflexivity |].
    rewrite (statement_refused _ _ h) by exact Hvalues.
    run_plugin.
    rewrite !createTaskCalls_app, !app_nil_r; repeat split; reflexivity.
  - destruct Hl.
  - repeat split; reflexivity.
Qed.

(** The start of a listener touches neither table nor queue, and its first
    [await] is a call of the file system. *)
Lemma listen_cannot_store ev w :
  cannotStore (fst (listen ev w))
  /\ db (snd (listen ev w)) = db w
  /\ tasks (snd (listen ev w)) = tasks w
  /\ taskCalls (snd (listen ev w)) = taskCalls w
  /\ createTaskCalls (trace (snd (listen ev w)))
     = createTaskCalls (trace w).
Proof.
  destruct ev as [path | path | path | error]; run_turn;
    try (destruct (negb (Js.endsWith path ".pdf")); run_plugin);
    rewrite ?createTaskCalls_app, ?app_nil_r; repeat split; reflexivity.
Qed.

Lemma Forall_setNth {A} (P : A -> Prop) i x :
  forall l, Forall P l -> P x -> Forall P (setNth i x l).
Proof.
  induction i as [| i IH]; intros [| y l] Hl Hx; cbn [setNth];
    try exact Hl; inversion Hl; subst; constructor; auto.
Qed.

Lemma takeTurn_cannot_store s t :
  Forall cannotStore (fst s) ->
  Forall cannotStore (fst (takeTurn E s t))
  /\ db (snd (takeTurn E s t)) = db (snd s)
  /\ tasks (snd (takeTurn E s t)) = tasks (snd s)
  /\ taskCalls (snd (takeTurn E s t)) = taskCalls (snd s)
  /\ createTaskCalls (trace (snd (takeTurn E s t)))
     = createTaskCalls (trace (snd s)).
Proof.
  destruct s as [pool w]. cbn [fst snd]. intros Hpool.
  destruct t as [ev | i]; cbn [takeTurn].
  - destruct (listen_cannot_store ev w) as [Hl Hrest].
    destruct (listen ev w) as [l w']. cbn [fst snd] in *.
    split; [| exact Hrest].
    apply Forall_app. split; [exact Hpool | repeat constructor; exact Hl].
  - destruct (nth_error pool i) as [l |] eqn:Hnth.
    + assert (Hl : cannotStore l).
      { rewrite Forall_forall in Hpool. apply Hpool.
        eapply nth_error_In. exact Hnth. }
      destruct (resume_cannot_store l w Hl) as [Hl' Hrest].
      destruct (resume E l w) as [l' w']. cbn [fst snd] in *.
      split; [| exact Hrest].
      apply Forall_setNth; assumption.
    + cbn [fst snd]. repeat split; try reflexivity. exact Hpool.
Qed.

(** However the listeners take their turns, none of them comes to store a
    row or to create a task. *)
Lemma runLoop_cannot_store turns :
  forall s,
    Forall cannotStore (fst s) ->
    Forall cannotStore (fst (runLoop E turns s))
    /\ db (snd (runLoop E turns s)) = db (snd s)
    /\ tasks (snd (runLoop E turns s)) = tasks (snd s)
    /\ taskCalls (snd (runLoop E turns s)) = taskCalls (snd s)
    /\ createTaskCalls (trace (snd (runLoop E turns s)))
       = createTaskCalls (trace (snd s)).
Proof.
  induction turns as [| t turns IH]; intros s Hs.
  - repeat split; try reflexivity. exact Hs.
  - unfold runLoop. cbn [fold_left]. fold (runLoop E turns (takeTurn E s t)).
    destruct (takeTurn_cannot_store s t Hs) as [H1 [H2 [H3 [H4 H5]]]].
    destruct (IH _ H1) as [K1 [K2 [K3 [K4 K5]]]].
    rewrite K2, K3, K4, K5. repeat split; assumption.
Qed.

(** A listener that takes all its turns with no other in between does what
    [handle] does. *)
Lemma runLoop_uninterrupted ev w :
  runLoop E (Emit ev :: repeat (Resume 0) 5) ([], w)
  = ([Settled], snd (handle E ev w)).
Proof.
  unfold runLoop. cbn [repeat fold_left].
  destruct ev as [path | path | path | error];
    cbn [takeTurn listen handle app]; unfold onAdd, onChange;
    try (destruct (negb (Js.endsWith path ".pdf")));
    cbn [takeTurn nth_error setNth resume]; try reflexivity.
  all: unfold turn; run_plugin; run_plugin.
  all: destruct (readFile E path) as [e | bytes]; run_plugin;
    cbn [takeTurn nth_error setNth resume]; [reflexivity |].
  all: unfold turn; run_plugin; run_plugin.
  all: destruct (statSize E path) as [e | size]; run_plugin;
    cbn [takeTurn nth_error setNth resume]; [reflexivity |].
  all: unfold turn; run_plugin; run_plugin.
  all: destruct (dbFault E (dbCalls w)) as [e |]; run_plugin;
    cbn [takeTurn nth_error setNth resume]; [reflexivity |].
  all: destruct (Db.selectByHash (md5hex E bytes) (db w)) as [| r rs];
    cbn [List.length Nat.ltb Nat.leb]; run_plugin;
    cbn [takeTurn nth_error setNth resume]; [| reflexivity].
  all: unfold turn; run_plugin; run_plugin.
  all: destruct (dbFault E (S (dbCalls w))) as [e |]; run_plugin;
    cbn [takeTurn nth_error setNth resume]; [reflexivity |].
  all: rewrite !(statement_refused _ _ (md5hex E bytes)) by reflexivity;
    run_plugin; cbn [takeTurn nth_error setNth resume]; reflexivity.
Qed.

End EventLoopFacts.

(* ===================================================================== *)
(** ** The ingestion pipeline *)
(* ===================================================================== *)

Section Ingestion.

Variable E : Env.

(** C1 (idempotence of ingestion), where the code departs from it.  Two
    files whose bytes have the same digest are sighted, the files readable
    and the database within reach, and no row with that digest is stored.
    Each sighting sends the statement with the identifier of line 142 in the
    column [id], which is declared [uuid]; the statement is refused and the
    error logged.  Afterwards the table is as it was, so it holds no row
    with that digest, and no task has been created.  This is so when the
    two listeners run one after the other, and also when the two events are
    emitted among any other turns of the event loop, their listeners and any
    others resumed in any order. *)
Theorem ingest_twice_stores_nothing path1 path2 bytes1 bytes2 size1 size2 w :
  readFile E path1 = inr bytes1 ->
  readFile E path2 = inr bytes2 ->
  statSize E path1 = inr size1 ->
  statSize E path2 = inr size2 ->
  md5hex E bytes1 = md5hex E bytes2 ->
  (forall k, dbFault E k = None) ->
  ~ In (md5hex E bytes1) (map hash (db w)) ->
  let h := md5hex E bytes1 in
  let w2 := snd (processLocalFile E path2 (snd (processLocalFile E path1 w))) in
  db w2 = db w
  /\ ~ In h (map hash (db w2))
  /\ tasks w2 = tasks w
  /\ logged (trace w2) = logged (trace w) ++
       [failedToProcess path1 (Pg.invalidUuid (localId h));
        failedToProcess path2 (Pg.invalidUuid (localId h))]
  /\ forall before between after,
       let s := runLoop E
                  (before ++ Emit (EvAdd path1)
                     :: between ++ Emit (EvChange path2) :: after)
                  ([], w) in
       db (snd s) = db w
       /\ ~ In h (map hash (db (snd s)))
       /\ tasks (snd s) = tasks w.
Proof.
  intros Hr1 Hr2 Hs1 Hs2 Hh Hdb Hnew h w2.
  assert (Hmiss : Db.selectByHash h (db w) = [])
    by (apply DbFacts.selectByHash_nil; exact Hnew).
  destruct (processLocalFile_refused E path1 bytes1 size1 w Hr1 Hs1
              (Hdb _) (Hdb _) Hmiss)
    as [w1 [Hrun1 [Hdb1 [Htasks1 [Htrace1 _]]]]].
  assert (Hmiss1 : Db.selectByHash (md5hex E bytes2) (db w1) = [])
    by (rewrite Hdb1, <- Hh; exact Hmiss).
  destruct (processLocalFile_refused E path2 bytes2 size2 w1 Hr2 Hs2
              (Hdb _) (Hdb _) Hmiss1)
    as [w2' [Hrun2 [Hdb2 [Htasks2 [Htrace2 _]]]]].
  assert (Hw2 : w2 = w2')
    by (subst w2; rewrite Hrun1; cbn [snd]; rewrite Hrun2; reflexivity).
  rewrite Hw2, Hdb2, Hdb1, Htasks2, Htasks1, Htrace2, Htrace1.
  split; [reflexivity |]. split; [exact Hnew |]. split; [reflexivity |].
  split.
  - rewrite !logged_app, <- app_assoc, <- Hh. reflexivity.
  - intros before between after s.
    destruct (runLoop_cannot_store E
                (before ++ Emit (EvAdd path1)
                   :: between ++ Emit (EvChange path2) :: after)
                ([], w) (Forall_nil _))
      as [_ [Hd [Ht _]]].
    cbn [snd] in Hd, Ht. subst s. rewrite Hd, Ht.
    split; [reflexivity |]. split; [exact Hnew | reflexivity].
Qed.

(** C2 (re-sighting of stored content), as the code has it.  When a row with
    the digest of the file's bytes is stored, processing the file, under
    whatever name, leaves the whole table as it was: the row keeps its file
    name and its modification time as well as its hash and creation time, and
    no row is added.  No task is created; the skip is logged. *)
Theorem resighting_leaves_record path bytes size w r :
  In r (db w) ->
  hash r = md5hex E bytes ->
  readFile E path = inr bytes ->
  statSize E path = inr size ->
  dbFault E (dbCalls w) = None ->
  exists w',
    processLocalFile E path w = (Normal tt, w')
    /\ db w' = db w
    /\ In r (db w')
    /\ tasks w' = tasks w
    /\ logged (trace w') = logged (trace w) ++
         [Info ("Local file " +++ fileNameOf path
                  +++ " already exists, skipping")].
Proof.
  intros Hin Hhash Hread Hstat Hdb.
  assert (Hhit : Db.selectByHash (md5hex E bytes) (db w) <> []).
  { intros Hnil. apply DbFacts.selectByHash_nil in Hnil. apply Hnil.
    rewrite <- Hhash. apply in_map. exact Hin. }
  destruct (processLocalFile_known E path bytes size w Hread Hstat Hdb Hhit)
    as [w' [Hrun [Hdb' [Htasks [Htrace _]]]]].
  exists w'. split; [exact Hrun |].
  split; [exact Hdb' |].
  split; [rewrite Hdb'; exact Hin |].
  split; [exact Htasks |].
  rewrite Htrace, logged_app. reflexivity.
Qed.

(** The body of [processLocalFile] ends with the lines 166-180. *)
Lemma processLocalFile_ends_with_afterInsert filePath :
  processLocalFile E filePath
  = tryCatch
      (let fileName := fileNameOf filePath in
       fileBuffer <- fsReadFile E filePath ;;
       fileSize <- fsStatSize E filePath ;;
       let h := md5hex E fileBuffer in
       fileExists <- dbSelectByHash E h ;;
       if (0 <? List.length fileExists)%nat then
         logger.info ("Local file " +++ fileName +++ " already exists, skipping")
       else
         let fileId := "local_" +++ Js.slice0 8 h in
         valuesNow <- newDate E ;;
         setNow <- newDate E ;;
         result <- dbInsertOnConflictDoUpdate E
                     (insertValues fileId h fileName fileSize valuesNow)
                     (conflictSet fileId fileName fileSize setNow) ;;
         afterInsert E result fileId fileName)
      (fun error =>
         logger.error ("Failed to process local file " +++ filePath +++ ":")
                      (Some error)).
Proof. reflexivity. Qed.


End Ingestion.

(* ===================================================================== *)
(** ** The insert-or-update statement *)
(* ===================================================================== *)

Section Upsert.

Variables (freshId : string) (now : Z).
Variables (h name : string) (size valuesNow setNow : Z).

(** C5 (frame of the upsert), where the code departs from it.  The
    statement of lines 145-164 offers the identifier of line 142, [local_]
    and eight characters of the digest, for the column [id], which is
    declared [uuid].  Whatever the table holds, a row with the proposed hash
    or none, the statement is refused with the error of a value that does not
    read as a [uuid]: no row is updated and none is inserted.  Sent by the
    plugin to a database within reach, it throws that error and leaves the
    table as it was. *)
Theorem upsert_refused (t : Table) :
  upsertStatement freshId now h name size valuesNow setNow t
  = inl (Pg.invalidUuid (localId h))
  /\ forall (E : Env) (w : World),
       dbFault E (dbCalls w) = None ->
       fst (dbInsertOnConflictDoUpdate E
              (insertValues (localId h) h name size valuesNow)
              (conflictSet (localId h) name size setNow) w)
       = Throw (Pg.invalidUuid (localId h))
       /\ db (snd (dbInsertOnConflictDoUpdate E
                     (insertValues (localId h) h name size valuesNow)
                     (conflictSet (localId h) name size setNow) w))
          = db w.
Proof.
  split.
  - unfold upsertStatement. apply statement_refused. reflexivity.
  - intros E w Hdb. run_plugin. run_plugin. rewrite Hdb.
    rewrite (statement_refused _ _ h) by reflexivity.
    split; reflexivity.
Qed.

End Upsert.

(* ===================================================================== *)
(** ** The listeners *)
(* ===================================================================== *)

Section Listeners.

Variable E : Env.

(** C6 (extension filter).  For an add or change event on a file whose name
    does not end in [.pdf], the listener returns normally; it calls neither
    the file system nor the database nor the queue, so no byte is read and no
    row and no task appear.  The change listener leaves the world as it was;
    the add listener writes one line to the log. *)
Theorem non_pdf_event_skipped path w :
  Js.endsWith (fileNameOf path) ".pdf" = false ->
  handle E (EvChange path) w = (Normal tt, w)
  /\ exists w',
       handle E (EvAdd path) w = (Normal tt, w')
       /\ db w' = db w
       /\ tasks w' = tasks w
       /\ trace w' = trace w ++ [ELog (Info ("Skipping non-PDF file: " +++ path))]
       /\ fsCalls (trace w') = fsCalls (trace w)
       /\ dbCalls w' = dbCalls w
       /\ taskCalls w' = taskCalls w
       /\ clockReads w' = clockReads w.
Proof.
  intros Hext. rewrite JsFacts.endsWith_fileNameOf in Hext.
  cbn [handle]. unfold onChange, onAdd. rewrite Hext.
  cbn [negb]. split; [reflexivity |].
  unfold logger.info, emit.
  eexists. split; [reflexivity |]. cbn.
  rewrite fsCalls_app, app_nil_r. repeat split; reflexivity.
Qed.

(** C7 (deletion keeps the record).  An unlink event, for any path and in
    any state of the table, returns normally and leaves the table and the
    queue as they were; it calls neither the file system nor the database.
    At most one line is logged. *)
Theorem unlink_keeps_records path w :
  exists w',
    handle E (EvUnlink path) w = (Normal tt, w')
    /\ db w' = db w
    /\ tasks w' = tasks w
    /\ fsCalls (trace w') = fsCalls (trace w)
    /\ dbCalls w' = dbCalls w
    /\ taskCalls w' = taskCalls w
    /\ (trace w' = trace w
        \/ trace w' = trace w
             ++ [ELog (Info ("Local file deleted: " +++ fileNameOf path))]).
Proof.
  cbn [handle]. unfold onUnlink.
  destruct (Js.endsWith path ".pdf"); cbn [negb].
  - unfold logger.info, emit. eexists. split; [reflexivity |]. cbn.
    rewrite fsCalls_app, app_nil_r.
    repeat split; try reflexivity. right; reflexivity.
  - exists w. repeat split; try reflexivity. left; reflexivity.
Qed.

(** No listener throws. *)
Lemma handle_returns ev w : exists w', handle E ev w = (Normal tt, w').
Proof.
  destruct ev as [path | path | path | error]; cbn [handle].
  - unfold onAdd. destruct (negb (Js.endsWith path ".pdf")).
    + eexists; reflexivity.
    + apply processLocalFile_returns.
  - unfold onChange. destruct (negb (Js.endsWith path ".pdf")).
    + eexists; reflexivity.
    + apply processLocalFile_returns.
  - unfold onUnlink. destruct (negb (Js.endsWith path ".pdf"));
      eexists; reflexivity.
  - eexists; reflexivity.
Qed.

(** Every event of a batch is handled, each in the world its predecessor
    left. *)
Lemma deliver_all evs :
  forall w,
    deliver E evs w
    = (Normal tt, fold_left (fun w ev => snd (handle E ev w)) evs w).
Proof.
  induction evs as [| ev evs IH]; intros w; [reflexivity |].
  cbn [deliver fold_left]. unfold bind.
  destruct (handle_returns ev w) as [w' Hw']. rewrite Hw'. cbn [snd].
  apply IH.
Qed.

(** C9 (fault isolation per file).  [processLocalFile] returns normally
    whatever happens inside it.  When the file cannot be read, or when the
    database rejects the write of new content, the error is written to the
    log and the call returns, with table and queue as they were.  A batch of
    events is therefore handled to its end, whatever happens to one file. *)
Theorem processLocalFile_isolates_faults path w :
  (exists w', processLocalFile E path w = (Normal tt, w'))
  /\ (forall e,
        readFile E path = inl e ->
        exists w',
          processLocalFile E path w = (Normal tt, w')
          /\ db w' = db w
          /\ tasks w' = tasks w
          /\ trace w' = trace w ++
               [EReadFile path;
                ELog (Error ("Failed to process local file " +++ path +++ ":")
                            (Some e))])
  /\ (forall bytes size e,
        readFile E path = inr bytes ->
        statSize E path = inr size ->
        dbFault E (dbCalls w) = None ->
        Db.selectByHash (md5hex E bytes) (db w) = [] ->
        dbFault E (S (dbCalls w)) = Some e ->
        exists w',
          processLocalFile E path w = (Normal tt, w')
          /\ db w' = db w
          /\ tasks w' = tasks w
          /\ trace w' = trace w ++
               [EReadFile path; EStat path; ESelect (md5hex E bytes);
                EInsert (md5hex E bytes);
                ELog (Error ("Failed to process local file " +++ path +++ ":")
                            (Some e))])
  /\ (forall before after,
        deliver E (before ++ EvAdd path :: after) w
        = (Normal tt,
           fold_left (fun w ev => snd (handle E ev w)) after
             (snd (handle E (EvAdd path)
                (fold_left (fun w ev => snd (handle E ev w)) before w))))).
Proof.
  split; [apply processLocalFile_returns |].
  split; [| split].
  - intros e Hread. run_plugin. rewrite Hread. run_plugin.
    eexists. split; [reflexivity |]. cbn.
    repeat rewrite <- app_assoc. repeat split; reflexivity.
  - intros bytes size e Hread Hstat Hdb1 Hmiss Hdb2.
    run_plugin. rewrite Hread, Hstat. run_plugin. rewrite Hdb1, Hmiss.
    cbn [List.length Nat.ltb Nat.leb]. run_plugin. rewrite Hdb2. run_plugin.
    eexists. split; [reflexivity |]. cbn.
    repeat rewrite <- app_assoc. repeat split; reflexivity.
  - intros before after.
    rewrite deliver_all, fold_left_app. reflexivity.
Qed.

End Listeners.


(* ===================================================================== *)
(** ** Runs on the concrete environment *)
(* ===================================================================== *)

Module Runs.

(** [paper.pdf] into an empty table: the statement is refused; no row, no
    task. *)
Example paper_is_refused :
  processLocalFile Demo.quiet "/watch/paper.pdf" Demo.emptyWorld
  = (Normal tt,
     {| db := []; tasks := [];
        trace :=
          [EReadFile "/watch/paper.pdf"; EStat "/watch/paper.pdf";
           ESelect "255044462d31"; EInsert "255044462d31";
           ELog (failedToProcess "/watch/paper.pdf"
                   (Pg.invalidUuid "local_25504446"))];
        clockReads := 2; dbCalls := 2; taskCalls := 0; syncCalls := 0 |}).
Proof. vm_compute. reflexivity. Qed.

(** A string that reads as a [uuid], in three of its forms, and four that do
    not. *)
Example uuid_syntax :
  map Pg.isUuid
    ["7d9c4a52-3f0e-4b6a-9c1d-2e8f5a7b6c40";
     "7D9C4A523F0E4B6A9C1D2E8F5A7B6C40";
     "{7d9c4a52-3f0e-4b6a-9c1d-2e8f5a7b6c40}";
     "local_25504446";
     "7d9c4a52-3f0e-4b6a-9c1d-2e8f5a7b6c4";
     "7d9c4a52-3f0e-4b6a-9c1d-2e8f5a7b6c40-";
     ""]
  = [true; true; true; false; false; false; false].
Proof. vm_compute. reflexivity. Qed.

(** The same bytes sighted under two names: no row, no task, two errors. *)
Lemma two_sightings_run :
  let h := md5hex Demo.quiet Demo.pdfBytes in
  let w2 := snd (processLocalFile Demo.quiet "/watch/sub/copy.pdf"
                   (snd (processLocalFile Demo.quiet "/watch/paper.pdf"
                           Demo.emptyWorld))) in
  db w2 = []
  /\ ~ In h (map hash (db w2))
  /\ tasks w2 = []
  /\ logged (trace w2) =
       [failedToProcess "/watch/paper.pdf" (Pg.invalidUuid (localId h));
        failedToProcess "/watch/sub/copy.pdf" (Pg.invalidUuid (localId h))]
  /\ forall before between after,
       let s := runLoop Demo.quiet
                  (before ++ Emit (EvAdd "/watch/paper.pdf")
                     :: between ++ Emit (EvChange "/watch/sub/copy.pdf")
                     :: after)
                  ([], Demo.emptyWorld) in
       db (snd s) = []
       /\ ~ In h (map hash (db (snd s)))
       /\ tasks (snd s) = [].
Proof.
  exact (ingest_twice_stores_nothing Demo.quiet
           "/watch/paper.pdf" "/watch/sub/copy.pdf"
           Demo.pdfBytes Demo.pdfBytes 6 6 Demo.emptyWorld
           eq_refl eq_refl eq_refl eq_refl eq_refl
           (fun _ => eq_refl) (fun H => H)).
Defined.

(** The two listeners turn by turn: both query the table before either
    sends its statement, and both statements are refused. *)
Example two_sightings_interleaved :
  let s := runLoop Demo.quiet
             [Emit (EvAdd "/watch/paper.pdf");
              Emit (EvAdd "/watch/sub/copy.pdf");
              Resume 0; Resume 1; Resume 0; Resume 1; Resume 0; Resume 1;
              Resume 0; Resume 1]
             ([], Demo.emptyWorld) in
  fst s = [Settled; Settled]
  /\ db (snd s) = []
  /\ tasks (snd s) = []
  /\ trace (snd s) =
       [EReadFile "/watch/paper.pdf"; EReadFile "/watch/sub/copy.pdf";
        EStat "/watch/paper.pdf"; EStat "/watch/sub/copy.pdf";
        ESelect "255044462d31"; ESelect "255044462d31";
        EInsert "255044462d31";
        ELog (failedToProcess "/watch/paper.pdf"
                (Pg.invalidUuid "local_25504446"));
        EInsert "255044462d31";
        ELog (failedToProcess "/watch/sub/copy.pdf"
                (Pg.invalidUuid "local_25504446"))].
Proof. vm_compute. repeat split; reflexivity. Qed.

(** The stored content seen again as [copy.pdf]: the table is unchanged. *)
Lemma resighting_run :
  exists w',
    processLocalFile Demo.quiet "/watch/sub/copy.pdf" Demo.afterPaper
    = (Normal tt, w')
    /\ db w' = db Demo.afterPaper
    /\ In Demo.paperRow (db w')
    /\ tasks w' = tasks Demo.afterPaper
    /\ logged (trace w') = logged (trace Demo.afterPaper) ++
         [Info "Local file copy.pdf already exists, skipping"].
Proof.
  exact (resighting_leaves_record Demo.quiet "/watch/sub/copy.pdf"
           Demo.pdfBytes 6 Demo.afterPaper Demo.paperRow
           (or_introl eq_refl) eq_refl eq_refl eq_refl eq_refl).
Defined.

(** C2, the claim as written, fails here: the stored row is [paper.pdf]; the
    same bytes arrive as [copy.pdf]; afterwards the row still carries the
    name [paper.pdf] and its old modification time. *)
Lemma resighting_does_not_rename :
  let w2 := snd (processLocalFile Demo.quiet "/watch/sub/copy.pdf"
                   Demo.afterPaper) in
  map hash (db Demo.afterPaper) = [md5hex Demo.quiet Demo.pdfBytes]
  /\ readFile Demo.quiet "/watch/sub/copy.pdf" = inr Demo.pdfBytes
  /\ fileNameOf "/watch/sub/copy.pdf" = "copy.pdf"
  /\ map fileName (db w2) = ["paper.pdf"]
  /\ "paper.pdf" <> "copy.pdf"
  /\ map modifiedAt (db w2) = map modifiedAt (db Demo.afterPaper)
  /\ clockReads w2 = clockReads Demo.afterPaper.
Proof.
  cbv zeta. repeat split; try reflexivity. discriminate.
Qed.

(** Three failures in a row. *)
Lemma always_failing_run :
  exists w',
    syncWithRetry Demo.quiet (Some 3) Demo.emptyWorld
    = Some (Throw "ECONNRESET #2", w')
    /\ syncCount (trace w') = 3%nat
    /\ sleeps (trace w') = [2000; 4000].
Proof.
  destruct (syncWithRetry_always_failing Demo.quiet Demo.failure
              Demo.emptyWorld (fun _ => eq_refl))
    as [w' [delta [Hrun [Htrace [Hdelta _]]]]].
  exists w'. split; [exact Hrun |].
  rewrite Htrace, Hdelta. split; reflexivity.
Defined.

(** Two failures, then success. *)
Lemma recovery_run :
  exists w',
    syncWithRetry (Demo.env (fun _ => None) (Demo.failsTwice "[1]"))
      (Some 3) Demo.emptyWorld
    = Some (Normal tt, w')
    /\ syncCount (trace w') = 3%nat
    /\ logged (trace w') =
         [Error "Drive sync attempt 1 failed:" (Some "ECONNRESET #0");
          Error "Drive sync attempt 2 failed:" (Some "ECONNRESET #1");
          Info "Drive sync completed: [1]"].
Proof.
  destruct (syncWithRetry_recovers
              (Demo.env (fun _ => None) (Demo.failsTwice "[1]"))
              "ECONNRESET #0" "ECONNRESET #1" "[1]" Demo.emptyWorld
              eq_refl eq_refl eq_refl)
    as [w' [delta [Hrun [Htrace [Hdelta _]]]]].
  exists w'. split; [exact Hrun |].
  rewrite Htrace, Hdelta. split; reflexivity.
Defined.

(** C4, the claim as written, fails here: the third call succeeds with [[1]]
    in one run and with [[2]] in the other, and the caller is handed the same
    completion in both, the one of a function that returns nothing. *)
Lemma sync_result_not_returned :
  let run result :=
    option_map fst
      (syncWithRetry (Demo.env (fun _ => None) (Demo.failsTwice result))
         (Some 3) Demo.emptyWorld) in
  Demo.failsTwice "[1]" 2%nat = inr "[1]"
  /\ Demo.failsTwice "[2]" 2%nat = inr "[2]"
  /\ "[1]" <> "[2]"
  /\ run "[1]" = Some (Normal tt)
  /\ run "[2]" = Some (Normal tt).
Proof.
  cbv zeta. repeat split; try reflexivity. discriminate.
Qed.

(** No attempt allowed. *)
Lemma nonpositive_run :
  syncWithRetry Demo.quiet (Some 0) Demo.emptyWorld
  = Some (Normal tt, Demo.emptyWorld)
  /\ syncWithRetry Demo.quiet (Some (-2)) Demo.emptyWorld
     = Some (Normal tt, Demo.emptyWorld).
Proof.
  split.
  - exact (proj1 (syncWithRetry_nonpositive Demo.quiet 0 Demo.emptyWorld
                    (Z.le_refl 0))).
  - apply (syncWithRetry_nonpositive Demo.quiet (-2) Demo.emptyWorld).
    discriminate.
Defined.

(** [notes.txt] is skipped. *)
Lemma notes_txt_run :
  handle Demo.quiet (EvChange "/watch/notes.txt") Demo.emptyWorld
  = (Normal tt, Demo.emptyWorld)
  /\ exists w',
       handle Demo.quiet (EvAdd "/watch/notes.txt") Demo.emptyWorld
       = (Normal tt, w')
       /\ db w' = []
       /\ tasks w' = []
       /\ trace w' = [ELog (Info "Skipping non-PDF file: /watch/notes.txt")]
       /\ fsCalls (trace w') = []
       /\ dbCalls w' = 0%nat
       /\ taskCalls w' = 0%nat
       /\ clockReads w' = 0%nat.
Proof.
  exact (non_pdf_event_skipped Demo.quiet "/watch/notes.txt" Demo.emptyWorld
           eq_refl).
Defined.



(** A missing file, a lost connection and a refused statement are logged;
    the batch goes on. *)
Example faults_are_logged :
  logged (trace (snd (deliver Demo.writeRejected
                        [EvAdd "/gone.pdf"; EvAdd "/watch/paper.pdf";
                         EvAdd "/watch/other.pdf"]
                        Demo.emptyWorld)))
  = [failedToProcess "/gone.pdf" "ENOENT";
     failedToProcess "/watch/paper.pdf" "ECONNRESET";
     failedToProcess "/watch/other.pdf" (Pg.invalidUuid "local_25504446")].
Proof. vm_compute. reflexivity. Qed.

(** With the database unreachable nothing is stored and nothing is thrown. *)
Example db_down_logged :
  processLocalFile Demo.dbDown "/watch/paper.pdf" Demo.emptyWorld
  = (Normal tt,
     {| db := []; tasks := [];
        trace :=
          [EReadFile "/watch/paper.pdf"; EStat "/watch/paper.pdf";
           ESelect "255044462d31";
           ELog (Error "Failed to process local file /watch/paper.pdf:"
                       (Some "ECONNREFUSED"))];
        clockReads := 0; dbCalls := 1; taskCalls := 0; syncCalls := 0 |}).
Proof. vm_compute. reflexivity. Qed.

End Runs.

(* ===================================================================== *)
(** ** The retry loop for any number of attempts *)
(* ===================================================================== *)

Section RetryGeneral.

Variable E : Env.

(** With [n + 1] attempts left and the next [n + 1] calls failing, the loop
    makes these calls and throws the error of the last. *)
Lemma retryLoop_exhausts (n : nat) :
  forall fuel maxRetries attempts w (err : nat -> JsError),
    maxRetries - attempts = Z.of_nat (S n) ->
    (S n <= fuel)%nat ->
    (forall k, (k <= n)%nat ->
       syncGoogleDriveChanges E (k + syncCalls w) = inl (err k)) ->
    exists w' delta,
      retryLoop E fuel maxRetries attempts w = Some (Throw (err n), w')
      /\ trace w' = trace w ++ delta
      /\ syncCount delta = S n
      /\ sleeps delta
         = map (fun i => 1000 * Js.pow2 (attempts + Z.of_nat i)) (seq 1 n)
      /\ syncCalls w' = (S n + syncCalls w)%nat.
Proof.
  induction n as [| n IH]; intros fuel maxRetries attempts w err Hdist Hfuel Hfail;
    (destruct fuel as [| fuel]; [lia |]); cbn [retryLoop];
    (replace (attempts <? maxRetries) with true
       by (symmetry; apply Z.ltb_lt; lia)).
  - rewrite (retryBody_last_failure E maxRetries attempts w (err 0%nat));
      [| apply (Hfail 0%nat); lia | lia].
    eexists; eexists. split; [reflexivity |]. cbn [trace syncCalls].
    split; [repeat rewrite <- app_assoc; reflexivity |].
    repeat split; reflexivity.
  - rewrite (retryBody_failure E maxRetries attempts w (err 0%nat));
      [| apply (Hfail 0%nat); lia | lia].
    match goal with
    | |- context [retryLoop E fuel maxRetries (attempts + 1) ?w1] =>
        destruct (IH fuel maxRetries (attempts + 1) w1 (fun k => err (S k)))
          as [w' [delta [Hrun [Htrace [Hcount [Hsleeps Hcalls]]]]]];
          [lia | lia | |]
    end.
    { intros k Hk. cbn [syncCalls]. rewrite Nat.add_succ_r.
      apply (Hfail (S k)). lia. }
    cbn [trace syncCalls] in *.
    exists w'.
    exists ([ESync;
             ELog (Error ("Drive sync attempt " +++ Js.showZ (attempts + 1)
                            +++ " failed:") (Some (err 0%nat)));
             ESleep (1000 * Js.pow2 (attempts + 1))] ++ delta).
    split; [exact Hrun |].
    split; [rewrite Htrace; repeat rewrite <- app_assoc; reflexivity |].
    split; [rewrite syncCount_app, Hcount; reflexivity |].
    split; [| rewrite Hcalls; lia].
    rewrite sleeps_app, Hsleeps. cbn [sleeps app seq map].
    change (Z.of_nat 1) with 1. f_equal.
    rewrite <- (seq_shift n 1), map_map. apply map_ext. intros i.
    replace (attempts + Z.of_nat (S i)) with (attempts + 1 + Z.of_nat i)
      by lia.
    reflexivity.
Qed.

(** With more than [j] attempts left, [j] failing calls and then a
    successful one, the loop returns after that call. *)
Lemma retryLoop_recovers (j : nat) :
  forall fuel maxRetries attempts w (err : nat -> JsError) result,
    attempts + Z.of_nat j < maxRetries ->
    (j < fuel)%nat ->
    (forall k, (k < j)%nat ->
       syncGoogleDriveChanges E (k + syncCalls w) = inl (err k)) ->
    syncGoogleDriveChanges E (j + syncCalls w) = inr result ->
    exists w' delta,
      retryLoop E fuel maxRetries attempts w = Some (Normal tt, w')
      /\ trace w' = trace w ++ delta
      /\ syncCount delta = S j
      /\ sleeps delta
         = map (fun i => 1000 * Js.pow2 (attempts + Z.of_nat i)) (seq 1 j)
      /\ (exists pre,
            delta = pre ++ [ESync;
                            ELog (Info ("Drive sync completed: " +++ result))])
      /\ syncCalls w' = (S j + syncCalls w)%nat.
Proof.
  induction j as [| j IH];
    intros fuel maxRetries attempts w err result Hlt Hfuel Hfail Hok;
    (destruct fuel as [| fuel]; [lia |]); cbn [retryLoop];
    (replace (attempts <? maxRetries) with true
       by (symmetry; apply Z.ltb_lt; lia)).
  - rewrite (retryBody_success E maxRetries attempts w result Hok).
    eexists; eexists. split; [reflexivity |]. cbn [trace syncCalls].
    split; [repeat rewrite <- app_assoc; reflexivity |].
    repeat split; try reflexivity.
    exists []. reflexivity.
  - rewrite (retryBody_failure E maxRetries attempts w (err 0%nat));
      [| apply (Hfail 0%nat); lia | lia].
    match goal with
    | |- context [retryLoop E fuel maxRetries (attempts + 1) ?w1] =>
        destruct (IH fuel maxRetries (attempts + 1) w1 (fun k => err (S k))
                    result)
          as [w' [delta [Hrun [Htrace [Hcount [Hsleeps [[pre Hpre] Hcalls]]]]]]];
          [lia | lia | | |]
    end.
    { intros k Hk. cbn [syncCalls]. rewrite Nat.add_succ_r.
      apply (Hfail (S k)). lia. }
    { cbn [syncCalls]. rewrite Nat.add_succ_r. exact Hok. }
    cbn [trace syncCalls] in *.
    exists w'.
    exists ([ESync;
             ELog (Error ("Drive sync attempt " +++ Js.showZ (attempts + 1)
                            +++ " failed:") (Some (err 0%nat)));
             ESleep (1000 * Js.pow2 (attempts + 1))] ++ delta).
    split; [exact Hrun |].
    split; [rewrite Htrace; repeat rewrite <- app_assoc; reflexivity |].
    split; [rewrite syncCount_app, Hcount; reflexivity |].
    split; [| split; [| rewrite Hcalls; lia]].
    + rewrite sleeps_app, Hsleeps. cbn [sleeps app seq map].
      change (Z.of_nat 1) with 1. f_equal.
      rewrite <- (seq_shift j 1), map_map. apply map_ext. intros i.
      replace (attempts + Z.of_nat (S i)) with (attempts + 1 + Z.of_nat i)
        by lia.
      reflexivity.
    + eexists. rewrite Hpre. rewrite app_assoc. reflexivity.
Qed.

(** Among the first [n] outcomes either all are failures or there is a first
    success. *)
Lemma first_success_or_all_fail (f : nat -> JsError + SyncResult) (n : nat) :
  (forall k, (k < n)%nat -> f k = inl (errorOf (f k)))
  \/ (exists j result,
        (j < n)%nat /\ f j = inr result
        /\ forall k, (k < j)%nat -> f k = inl (errorOf (f k))).
Proof.
  induction n as [| n [Hall | [j [result [Hj [Hok Hbefore]]]]]].
  - left. intros k Hk. lia.
  - destruct (f n) as [e | result] eqn:Hn.
    + left. intros k Hk.
      destruct (Nat.eq_dec k n) as [-> | Hne]; [rewrite Hn; reflexivity |].
      apply Hall. lia.
    + right. exists n, result. repeat split; [lia | exact Hn |].
      intros k Hk. apply Hall. exact Hk.
  - right. exists j, result. repeat split; [lia | exact Hok | exact Hbefore].
Qed.

End RetryGeneral.

Section RetryOutcome.

Variable E : Env.

Lemma sumZ_app l1 l2 : sumZ (l1 ++ l2) = sumZ l1 + sumZ l2.
Proof.
  unfold sumZ. induction l1 as [| x l1 IH]; cbn; [reflexivity | rewrite IH; lia].
Qed.

(** The delays before giving up add up to [1000 * (2^(n+1) - 2)]. *)
Lemma sumZ_backoff (n : nat) :
  sumZ (map (fun i => 1000 * 2 ^ Z.of_nat i) (seq 1 n))
  = 1000 * (2 ^ Z.of_nat (S n) - 2).
Proof.
  induction n as [| n IH]; [reflexivity |].
  rewrite seq_S, map_app, sumZ_app, IH. cbn [map sumZ fold_right].
  replace (Z.of_nat (S (S n))) with (Z.succ (Z.of_nat (1 + n))) by lia.
  rewrite Z.pow_succ_r by lia.
  replace (Z.of_nat (S n)) with (Z.of_nat (1 + n)) by lia.
  lia.
Qed.

(** The three ways a call of [syncWithRetry] goes: no attempt is allowed; all
    allowed attempts fail; or an attempt succeeds after [j] failures. *)
Lemma syncWithRetry_cases (maxRetries : option Z) (w : World) :
  let n := Js.orDefault maxRetries 3 in
  let f := fun k => syncGoogleDriveChanges E (k + syncCalls w) in
  (n <= 0 /\ syncWithRetry E maxRetries w = Some (Normal tt, w))
  \/ (1 <= n
      /\ (forall k, (k < Z.to_nat n)%nat -> f k = inl (errorOf (f k)))
      /\ exists w' delta,
           syncWithRetry E maxRetries w
           = Some (Throw (errorOf (f (Z.to_nat n - 1)%nat)), w')
           /\ trace w' = trace w ++ delta
           /\ syncCount delta = Z.to_nat n
           /\ sleeps delta
              = map (fun i => 1000 * 2 ^ Z.of_nat i) (seq 1 (Z.to_nat n - 1))
           /\ syncCalls w' = (Z.to_nat n + syncCalls w)%nat)
  \/ (exists j result,
        (j < Z.to_nat n)%nat
        /\ f j = inr result
        /\ (forall k, (k < j)%nat -> f k = inl (errorOf (f k)))
        /\ exists w' delta,
             syncWithRetry E maxRetries w = Some (Normal tt, w')
             /\ trace w' = trace w ++ delta
             /\ syncCount delta = S j
             /\ sleeps delta = map (fun i => 1000 * 2 ^ Z.of_nat i) (seq 1 j)
             /\ (exists pre,
                   delta = pre ++
                     [ESync; ELog (Info ("Drive sync completed: " +++ result))])
             /\ syncCalls w' = (S j + syncCalls w)%nat).
Proof.
  intros n f. unfold syncWithRetry. fold n.
  destruct (Z_le_gt_dec n 0) as [Hle | Hgt].
  - left. split; [exact Hle |]. cbn [retryLoop].
    destruct (0 <? n) eqn:Hlt; [apply Z.ltb_lt in Hlt; lia | reflexivity].
  - right.
    destruct (first_success_or_all_fail f (Z.to_nat n))
      as [Hall | [j [result [Hj [Hok Hbefore]]]]].
    + left. split; [lia |]. split; [exact Hall |].
      destruct (retryLoop_exhausts E (Z.to_nat n - 1) (S (Z.to_nat n)) n 0 w
                  (fun k => errorOf (f k)))
        as [w' [delta [Hrun [Htrace [Hcount [Hsleeps Hcalls]]]]]];
        [lia | lia | intros k Hk; apply Hall; lia |].
      exists w', delta.
      split; [exact Hrun |]. split; [exact Htrace |].
      split; [rewrite Hcount; lia |].
      split; [exact Hsleeps |]. rewrite Hcalls. lia.
    + right. exists j, result.
      split; [exact Hj |]. split; [exact Hok |]. split; [exact Hbefore |].
      destruct (retryLoop_recovers E j (S (Z.to_nat n)) n 0 w
                  (fun k => errorOf (f k)) result)
        as [w' [delta [Hrun [Htrace [Hcount [Hsleeps [Hpre Hcalls]]]]]]];
        [lia | lia | exact Hbefore | exact Hok |].
      exists w', delta. repeat split; assumption.
Qed.

End RetryOutcome.

Section RetryExtras.

Variable E : Env.

(** The delays after up to 21 failed attempts are delays a timer takes. *)
Lemma backoff_in_timer_range (n : nat) :
  (n <= 21)%nat ->
  Forall (fun d => d <= Js.maxTimerDelay)
         (map (fun i => 1000 * 2 ^ Z.of_nat i) (seq 1 n)).
Proof.
  intros Hn. apply Forall_forall. intros d Hd.
  apply in_map_iff in Hd. destruct Hd as [i [<- Hi]].
  apply in_seq in Hi.
  assert (H : 2 ^ Z.of_nat i <= 2 ^ 21) by (apply Z.pow_le_mono_r; lia).
  change (2 ^ 21) with 2097152 in H. unfold Js.maxTimerDelay. lia.
Qed.

(** X1 (giving up, up to 22 attempts).  For a whole number [n + 1] of
    attempts, at most 22: when the next [n + 1] calls of the remote sync
    operation fail, [syncWithRetry] with [maxRetries = n + 1] makes exactly
    these [n + 1] calls, waits [1000 * 2^i] ms after the failed attempt [i]
    for [i = 1 .. n] and not after the last, and throws the error of the last
    call.  Each of these delays is one a timer takes. *)
Theorem retry_gives_up_after_all_attempts (n : nat) (w : World)
    (err : nat -> JsError) :
  (n <= 21)%nat ->
  (forall k, (k <= n)%nat ->
     syncGoogleDriveChanges E (k + syncCalls w) = inl (err k)) ->
  exists w' delta,
    syncWithRetry E (Some (Z.of_nat (S n))) w = Some (Throw (err n), w')
    /\ trace w' = trace w ++ delta
    /\ syncCount delta = S n
    /\ sleeps delta = map (fun i => 1000 * 2 ^ Z.of_nat i) (seq 1 n)
    /\ Forall (fun d => d <= Js.maxTimerDelay) (sleeps delta)
    /\ syncCalls w' = (S n + syncCalls w)%nat.
Proof.
  intros Hn Hfail. unfold syncWithRetry. cbn [Js.orDefault].
  destruct (retryLoop_exhausts E n (S (Z.to_nat (Z.of_nat (S n))))
              (Z.of_nat (S n)) 0 w err)
    as [w' [delta [Hrun [Htrace [Hcount [Hsleeps Hcalls]]]]]];
    [lia | lia | exact Hfail |].
  exists w', delta. repeat split; try assumption.
  rewrite Hsleeps. apply backoff_in_timer_range. exact Hn.
Qed.

(** X2 (recovery at any of the first 22 attempts).  For a whole number
    [maxRetries] and [j <= 21]: when the next [j] calls fail and the one
    after them succeeds, and [j < maxRetries], [syncWithRetry] returns
    normally after exactly [j + 1] calls, having waited [1000 * 2^i] ms after
    the failed attempt [i] for [i = 1 .. j], each a delay a timer takes; the
    last thing it does is to log the result of the successful call. *)
Theorem retry_recovers_at_any_attempt (j : nat) (maxRetries : Z) (w : World)
    (err : nat -> JsError) (result : SyncResult) :
  (j <= 21)%nat ->
  Z.of_nat j < maxRetries ->
  (forall k, (k < j)%nat ->
     syncGoogleDriveChanges E (k + syncCalls w) = inl (err k)) ->
  syncGoogleDriveChanges E (j + syncCalls w) = inr result ->
  exists w' delta,
    syncWithRetry E (Some maxRetries) w = Some (Normal tt, w')
    /\ trace w' = trace w ++ delta
    /\ syncCount delta = S j
    /\ sleeps delta = map (fun i => 1000 * 2 ^ Z.of_nat i) (seq 1 j)
    /\ Forall (fun d => d <= Js.maxTimerDelay) (sleeps delta)
    /\ (exists pre,
          delta = pre ++
            [ESync; ELog (Info ("Drive sync completed: " +++ result))])
    /\ syncCalls w' = (S j + syncCalls w)%nat.
Proof.
  intros Hj Hlt Hfail Hok. unfold syncWithRetry. cbn [Js.orDefault].
  destruct (retryLoop_recovers E j (S (Z.to_nat maxRetries)) maxRetries 0 w
              err result)
    as [w' [delta [Hrun [Htrace [Hcount [Hsleeps [Hpre Hcalls]]]]]]];
    [lia | lia | exact Hfail | exact Hok |].
  exists w', delta. repeat split; try assumption.
  rewrite Hsleeps. apply backoff_in_timer_range. exact Hj.
Qed.

(** X3 (bound on calls and delays).  For a whole number [maxRetries] of at
    most 22, or the default: whatever the remote sync operation does,
    [syncWithRetry] ends, having called it at most [maxRetries] times (not at
    all when [maxRetries <= 0]).  It waits once between two consecutive
    calls and never after the last; every delay is at least 2000 ms and at
    most [1000 * 2^(maxRetries - 1)] ms, and is one a timer takes. *)
Theorem retry_call_bound (maxRetries : option Z) (w : World) :
  Js.orDefault maxRetries 3 <= 22 ->
  exists c w' delta,
    syncWithRetry E maxRetries w = Some (c, w')
    /\ trace w' = trace w ++ delta
    /\ Z.of_nat (syncCount delta) <= Z.max 0 (Js.orDefault maxRetries 3)
    /\ syncCalls w' = (syncCount delta + syncCalls w)%nat
    /\ List.length (sleeps delta) = (syncCount delta - 1)%nat
    /\ Forall (fun d => 2000 <= d
                        /\ 2 * d <= 1000 * 2 ^ Js.orDefault maxRetries 3
                        /\ d <= Js.maxTimerDelay)
              (sleeps delta).
Proof.
  intros Hmax.
  assert (Hdelays : forall m (n : Z), Z.of_nat m < n -> (m <= 21)%nat ->
            Forall (fun d => 2000 <= d /\ 2 * d <= 1000 * 2 ^ n
                             /\ d <= Js.maxTimerDelay)
                   (map (fun i => 1000 * 2 ^ Z.of_nat i) (seq 1 m))).
  { intros m n Hm Hm21. apply Forall_forall. intros d Hd.
    pose proof (backoff_in_timer_range m Hm21) as Hrange.
    rewrite Forall_forall in Hrange. specialize (Hrange d Hd).
    apply in_map_iff in Hd. destruct Hd as [i [<- Hi]].
    apply in_seq in Hi.
    assert (H1 : 2 ^ 1 <= 2 ^ Z.of_nat i)
      by (apply Z.pow_le_mono_r; lia).
    assert (H2 : 2 ^ Z.succ (Z.of_nat i) <= 2 ^ n)
      by (apply Z.pow_le_mono_r; lia).
    rewrite Z.pow_succ_r in H2 by lia.
    change (2 ^ 1) with 2 in H1. lia. }
  destruct (syncWithRetry_cases E maxRetries w)
    as [[Hle Hrun]
       | [[Hge [_ [w' [delta [Hrun [Htrace [Hcount [Hsleeps Hcalls]]]]]]]]
         | [j [result [Hj [_ [_ [w' [delta [Hrun [Htrace [Hcount
              [Hsleeps [_ Hcalls]]]]]]]]]]]]]].
  - exists (Normal tt), w, []. rewrite app_nil_r.
    repeat split; try assumption; try reflexivity; try constructor. cbn. lia.
  - eexists; exists w', delta.
    split; [exact Hrun |]. split; [exact Htrace |].
    split; [rewrite Hcount; lia |].
    split; [rewrite Hcount; exact Hcalls |].
    split; [rewrite Hsleeps, Hcount, length_map, length_seq; reflexivity |].
    rewrite Hsleeps. apply Hdelays; lia.
  - exists (Normal tt), w', delta.
    split; [exact Hrun |]. split; [exact Htrace |].
    split; [rewrite Hcount; lia |].
    split; [rewrite Hcount; exact Hcalls |].
    split; [rewrite Hsleeps, Hcount, length_map, length_seq; lia |].
    rewrite Hsleeps. apply Hdelays; lia.
Qed.

(** X4 (when the retry loop throws).  For a whole number [maxRetries] from
    1 to 22, [syncWithRetry] throws [e] exactly when each of the next
    [maxRetries] calls of the remote sync operation fails and [e] is the
    error of the last of them; a single success among them makes it return
    normally. *)
Theorem retry_throws_iff_all_fail (maxRetries : Z) (w : World) (e : JsError) :
  1 <= maxRetries <= 22 ->
  (exists w', syncWithRetry E (Some maxRetries) w = Some (Throw e, w'))
  <-> ((forall k, (k < Z.to_nat maxRetries)%nat ->
          exists e', syncGoogleDriveChanges E (k + syncCalls w) = inl e')
       /\ syncGoogleDriveChanges E (Z.to_nat maxRetries - 1 + syncCalls w)
          = inl e).
Proof.
  intros Hpos.
  destruct (syncWithRetry_cases E (Some maxRetries) w)
    as [[Hle _]
       | [[_ [Hall [w' [delta [Hrun _]]]]]
         | [j [result [Hj [Hok [_ [w' [delta [Hrun _]]]]]]]]]];
    cbn [Js.orDefault] in *.
  - lia.
  - assert (Hlast : syncGoogleDriveChanges E
                      (Z.to_nat maxRetries - 1 + syncCalls w)
                    = inl (errorOf (syncGoogleDriveChanges E
                             (Z.to_nat maxRetries - 1 + syncCalls w))))
      by (apply Hall; lia).
    split.
    + intros [w'' Hthrow]. rewrite Hrun in Hthrow.
      injection Hthrow as He _. split.
      * intros k Hk. eexists. apply Hall. exact Hk.
      * rewrite <- He. exact Hlast.
    + intros [_ He]. exists w'. rewrite Hrun. rewrite He. reflexivity.
  - split.
    + intros [w'' Hthrow]. rewrite Hrun in Hthrow. discriminate.
    + intros [Hall _]. destruct (Hall j Hj) as [e' He']. congruence.
Qed.

(** X5 (total waiting time before giving up).  For a whole number [n + 1]
    of attempts, at most 22: when all of them fail, the delays
    [syncWithRetry] waits for, each one a timer takes, add up to
    [1000 * (2^(n+1) - 2)] ms: 6000 ms for the default of three attempts. *)
Theorem retry_total_backoff (n : nat) (w : World) (err : nat -> JsError) :
  (n <= 21)%nat ->
  (forall k, (k <= n)%nat ->
     syncGoogleDriveChanges E (k + syncCalls w) = inl (err k)) ->
  exists w' delta,
    syncWithRetry E (Some (Z.of_nat (S n))) w = Some (Throw (err n), w')
    /\ trace w' = trace w ++ delta
    /\ Forall (fun d => d <= Js.maxTimerDelay) (sleeps delta)
    /\ sumZ (sleeps delta) = 1000 * (2 ^ Z.of_nat (S n) - 2).
Proof.
  intros Hn Hfail. unfold syncWithRetry. cbn [Js.orDefault].
  destruct (retryLoop_exhausts E n (S (Z.to_nat (Z.of_nat (S n))))
              (Z.of_nat (S n)) 0 w err)
    as [w' [delta [Hrun [Htrace [_ [Hsleeps _]]]]]];
    [lia | lia | exact Hfail |].
  exists w', delta. split; [exact Hrun |]. split; [exact Htrace |].
  rewrite Hsleeps. split; [apply backoff_in_timer_range; exact Hn |].
  apply sumZ_backoff.
Qed.

End RetryExtras.

(* ===================================================================== *)
(** ** What the listeners keep, whatever fails *)
(* ===================================================================== *)

Section Growth.

Variable E : Env.

(** A listener run to its end, whatever its collaborators do, leaves the
    table and the queue as they were. *)
Lemma handle_inert ev w :
  db (snd (handle E ev w)) = db w
  /\ tasks (snd (handle E ev w)) = tasks w
  /\ createTaskCalls (trace (snd (handle E ev w)))
     = createTaskCalls (trace w).
Proof.
  destruct ev as [path | path | path | error]; cbn [handle].
  - unfold onAdd. destruct (negb (Js.endsWith path ".pdf")).
    + unfold logger.info, emit. cbn [snd db tasks trace].
      rewrite createTaskCalls_app, app_nil_r. repeat split; reflexivity.
    + destruct (processLocalFile_inert E path w) as [Hd [Ht [_ Hc]]].
      repeat split; assumption.
  - unfold onChange. destruct (negb (Js.endsWith path ".pdf")).
    + repeat split; reflexivity.
    + destruct (processLocalFile_inert E path w) as [Hd [Ht [_ Hc]]].
      repeat split; assumption.
  - unfold onUnlink. destruct (negb (Js.endsWith path ".pdf")).
    + repeat split; reflexivity.
    + unfold logger.info, emit. cbn [snd db tasks trace].
      rewrite createTaskCalls_app, app_nil_r. repeat split; reflexivity.
  - unfold onError, logger.error, emit. cbn [snd db tasks trace].
    rewrite createTaskCalls_app, app_nil_r. repeat split; reflexivity.
Qed.

Lemma deliver_snd ev evs w :
  snd (deliver E (ev :: evs) w) = snd (deliver E evs (snd (handle E ev w))).
Proof.
  rewrite !deliver_all. reflexivity.
Qed.

(** The same for a batch of events. *)
Lemma deliver_inert evs :
  forall w,
    db (snd (deliver E evs w)) = db w
    /\ tasks (snd (deliver E evs w)) = tasks w
    /\ createTaskCalls (trace (snd (deliver E evs w)))
       = createTaskCalls (trace w).
Proof.
  induction evs as [| ev evs IH]; intros w; [repeat split; reflexivity |].
  rewrite deliver_snd.
  destruct (IH (snd (handle E ev w))) as [Hd [Ht Hc]].
  destruct (handle_inert ev w) as [Hd' [Ht' Hc']].
  rewrite Hd, Ht, Hc. repeat split; assumption.
Qed.

End Growth.

Section Invariants.

Variable E : Env.

(** X6 (the local pipeline stores nothing).  Whatever events the watcher
    emits, however the listeners take their turns between their [await]s,
    and whatever the file system, the database and the queue do, the table
    and the queue are afterwards as they were before, and [createTask] has
    not been called: every statement a listener sends carries the identifier
    of line 142 for the column [id], declared [uuid], and is refused.  The
    same holds when each listener runs to its end before the next event. *)
Theorem local_pipeline_stores_nothing (turns : list Turn)
    (evs : list WatchEvent) (w : World) :
  (db (snd (runLoop E turns ([], w))) = db w
   /\ tasks (snd (runLoop E turns ([], w))) = tasks w
   /\ taskCalls (snd (runLoop E turns ([], w))) = taskCalls w
   /\ createTaskCalls (trace (snd (runLoop E turns ([], w))))
      = createTaskCalls (trace w))
  /\ (db (snd (deliver E evs w)) = db w
      /\ tasks (snd (deliver E evs w)) = tasks w
      /\ createTaskCalls (trace (snd (deliver E evs w)))
         = createTaskCalls (trace w)).
Proof.
  split.
  - destruct (runLoop_cannot_store E turns ([], w) (Forall_nil _))
      as [_ H]. exact H.
  - apply deliver_inert.
Qed.

(** X7 (the primary key holds throughout).  If no two rows of the table
    share a hash, no sequence of watcher events, with whatever faults, makes
    two rows share one. *)
Theorem deliver_keeps_primary_key (evs : list WatchEvent) (w : World) :
  Db.pkValid (db w) -> Db.pkValid (db (snd (deliver E evs w))).
Proof.
  intros Hpk. destruct (deliver_inert E evs w) as [Hd _].
  rewrite Hd. exact Hpk.
Qed.

End Invariants.

(* ===================================================================== *)
(** ** File names and extensions *)
(* ===================================================================== *)

Module PathFacts.

Lemma split_pieces_noSep s : Forall (fun x => Js.noSep x = true) (Js.split s).
Proof.
  induction s as [| c s IH]; cbn [Js.split].
  - repeat constructor.
  - destruct (Js.isSep c) eqn:Hc.
    + constructor; [reflexivity | exact IH].
    + destruct (Js.split s) as [| x xs].
      * repeat constructor. cbn. rewrite Hc. reflexivity.
      * inversion IH as [| y ys Hx Hxs]; subst.
        constructor; [| exact Hxs]. cbn. rewrite Hc, Hx. reflexivity.
Qed.

Lemma last_in {A} (l : list A) (d : A) : l <> [] -> In (List.last l d) l.
Proof.
  induction l as [| a [| b l] IH]; intros Hne; [congruence | left; reflexivity |].
  right. apply IH. discriminate.
Qed.

Lemma last_app_nonempty {A} (l1 l2 : list A) (d : A) :
  l2 <> [] -> List.last (l1 ++ l2) d = List.last l2 d.
Proof.
  intros Hne. induction l1 as [| a l1 IH]; [reflexivity |].
  cbn [app]. destruct (l1 ++ l2) as [| b l] eqn:Happ.
  - apply app_eq_nil in Happ. destruct Happ as [_ H2]. congruence.
  - cbn [List.last]. rewrite <- IH. reflexivity.
Qed.

(** A separator ends one piece and begins the next. *)
Lemma split_at_sep pre c rest :
  Js.isSep c = true ->
  Js.split (pre +++ String c rest) = Js.split pre ++ Js.split rest.
Proof.
  intros Hc. induction pre as [| d pre IH].
  - cbn [String.append Js.split]. rewrite Hc. reflexivity.
  - cbn [String.append Js.split]. rewrite IH.
    pose proof (JsFacts.split_nonempty pre) as Hne.
    destruct (Js.isSep d); [reflexivity |].
    destruct (Js.split pre) as [| x xs]; [congruence | reflexivity].
Qed.

(** Two endings of one string: the shorter is an ending of the longer. *)
Lemma append_same_end p1 :
  forall p2 a b,
    p1 +++ a = p2 +++ b ->
    (String.length b <= String.length a)%nat ->
    exists q, a = q +++ b.
Proof.
  induction p1 as [| c p1 IH]; intros p2 a b Heq Hlen.
  - exists p2. exact Heq.
  - destruct p2 as [| d p2].
    + cbn [String.append] in Heq.
      assert (Hl : String.length (String c (p1 +++ a)) = String.length b)
        by (rewrite Heq; reflexivity).
      cbn [String.length] in Hl. rewrite JsFacts.length_append in Hl. lia.
    + cbn [String.append] in Heq. injection Heq as _ Heq.
      exact (IH p2 a b Heq Hlen).
Qed.

Lemma endsWith_both s a b :
  Js.endsWith s a = true ->
  Js.endsWith s b = true ->
  (String.length b <= String.length a)%nat ->
  Js.endsWith a b = true.
Proof.
  intros Ha Hb Hlen.
  apply JsFacts.endsWith_elim in Ha. destruct Ha as [p1 H1].
  apply JsFacts.endsWith_elim in Hb. destruct Hb as [p2 H2].
  destruct (append_same_end p1 p2 a b) as [q ->];
    [congruence | exact Hlen |].
  apply JsFacts.endsWith_intro.
Qed.

(** X11 (a stored file name is a name).  For every path, the file name the
    plugin derives from it is not empty and contains neither a slash nor a
    backslash. *)
Theorem fileNameOf_is_a_name (filePath : string) :
  fileNameOf filePath <> EmptyString
  /\ Js.noSep (fileNameOf filePath) = true.
Proof.
  unfold fileNameOf.
  assert (Hpiece : Js.noSep (Js.pop (Js.split filePath)) = true).
  { pose proof (split_pieces_noSep filePath) as Hall.
    rewrite Forall_forall in Hall. apply Hall.
    apply last_in. apply JsFacts.split_nonempty. }
  destruct (Js.pop (Js.split filePath)) as [| c x].
  - split; [discriminate | reflexivity].
  - split; [discriminate | exact Hpiece].
Qed.

(** X12 (the file name is what follows the last separator).  For a directory
    part [dir], a separator [c] (slash or backslash) and a text [name]
    without separators, the file name of [dir c name] is [name]; when [name]
    is empty, that is when the path ends in a separator, it is [unknown].  A
    path without any separator is its own file name, and the empty path has
    the file name [unknown]. *)
Theorem fileNameOf_of_join (dir : string) (c : ascii) (name : string) :
  Js.noSep name = true ->
  (Js.isSep c = true ->
     fileNameOf (dir +++ String c name) = Js.orElse name "unknown")
  /\ fileNameOf name = Js.orElse name "unknown".
Proof.
  intros Hname. unfold fileNameOf, Js.pop. split.
  - intros Hc. rewrite (split_at_sep dir c name Hc).
    rewrite last_app_nonempty by apply JsFacts.split_nonempty.
    rewrite (JsFacts.split_noSep name Hname). reflexivity.
  - rewrite (JsFacts.split_noSep name Hname). reflexivity.
Qed.

End PathFacts.

Section TempFiles.

Variable E : Env.

(** X13 (partial downloads are never ingested).  An add, change or unlink
    event for a path ending in [.tmp] or [.crdownload], should the watcher
    deliver one, is dropped by the listener: it returns normally without any
    file-system or database call and with table and queue as they were. *)
Theorem temp_files_are_never_ingested (path : string) (ev : WatchEvent)
    (w : World) :
  Js.endsWith path ".tmp" = true \/ Js.endsWith path ".crdownload" = true ->
  ev = EvAdd path \/ ev = EvChange path \/ ev = EvUnlink path ->
  fst (handle E ev w) = Normal tt
  /\ db (snd (handle E ev w)) = db w
  /\ tasks (snd (handle E ev w)) = tasks w
  /\ fsCalls (trace (snd (handle E ev w))) = fsCalls (trace w)
  /\ dbCalls (snd (handle E ev w)) = dbCalls w.
Proof.
  intros Htemp Hev.
  assert (Hpdf : Js.endsWith path ".pdf" = false).
  { destruct (Js.endsWith path ".pdf") eqn:Hp; [| reflexivity].
    destruct Htemp as [Ht | Ht].
    - pose proof (PathFacts.endsWith_both path ".tmp" ".pdf" Ht Hp) as H.
      cbn in H. specialize (H (le_n _)). discriminate H.
    - pose proof (PathFacts.endsWith_both path ".crdownload" ".pdf" Ht Hp) as H.
      cbn in H. assert (Hle : (4 <= 11)%nat) by lia.
      specialize (H Hle). discriminate H. }
  destruct Hev as [-> | [-> | ->]]; cbn [handle];
    unfold onAdd, onChange, onUnlink; rewrite Hpdf; cbn [negb];
    unfold logger.info, emit, ret; cbn [fst snd db tasks trace dbCalls];
    rewrite ?fsCalls_app, ?app_nil_r; repeat split; reflexivity.
Qed.

End TempFiles.

(* ===================================================================== *)
(** ** Initialization and shutdown *)
(* ===================================================================== *)

Section PluginFacts.

Variable E : Env.

Lemma closeAt_last ws x :
  Plugin.closeAt (List.length ws) (ws ++ [x])
  = ws ++ [{| watchedPath := watchedPath x; watchOptions := watchOptions x;
              closed := true |}].
Proof.
  induction ws as [| y ws IH]; [reflexivity |].
  cbn [List.length app Plugin.closeAt]. rewrite IH. reflexivity.
Qed.

Lemma closeAt_other i :
  forall ws j, i <> j -> nth_error (Plugin.closeAt i ws) j = nth_error ws j.
Proof.
  induction i as [| i IH]; intros [| x ws] [| j] Hne; try reflexivity;
    try congruence.
  cbn [Plugin.closeAt nth_error]. apply IH. congruence.
Qed.

(** The default three attempts, all failing. *)
Lemma syncWithRetry_default_fails w (err : nat -> JsError) :
  (forall k, (k <= 2)%nat ->
     syncGoogleDriveChanges E (k + syncCalls w) = inl (err k)) ->
  exists w',
    syncWithRetry E None w = Some (Throw (err 2%nat), w')
    /\ db w' = db w /\ tasks w' = tasks w.
Proof.
  intros Hfail.
  assert (H0 := Hfail 0%nat ltac:(lia)).
  assert (H1 := Hfail 1%nat ltac:(lia)).
  assert (H2 := Hfail 2%nat ltac:(lia)).
  cbn [Nat.add] in H0, H1, H2.
  unfold syncWithRetry; cbn [Js.orDefault].
  change (Z.to_nat 3) with 3%nat.
  cbn [retryLoop]. change (0 <? 3) with true. cbv iota.
  rewrite (retryBody_failure E 3 0 w (err 0%nat)); [| exact H0 | discriminate].
  change (0 + 1) with 1. change (1 <? 3) with true. cbv iota.
  rewrite (retryBody_failure E 3 1 _ (err 1%nat)); [| exact H1 | discriminate].
  change (1 + 1) with 2. change (2 <? 3) with true. cbv iota.
  rewrite (retryBody_last_failure E 3 2 _ (err 2%nat));
    [| exact H2 | reflexivity].
  eexists. repeat split; reflexivity.
Qed.

(** X14 (a failed sync keeps local monitoring from starting).  When the
    three calls of the remote sync operation that [init] allows all fail,
    [init] throws the error of the third, and no watcher is created: the
    local folder is not monitored even when one is configured. *)
Theorem init_sync_failure_blocks_monitoring (this : DrivePlugin)
    (p : Process) (err : nat -> JsError) :
  (forall k, (k <= 2)%nat ->
     syncGoogleDriveChanges E (k + syncCalls (world p)) = inl (err k)) ->
  exists p',
    Plugin.init E this p = Some (Throw (err 2%nat), this, p')
    /\ watchers p' = watchers p
    /\ console p' = console p ++ ["DrivePlugin initialized"]
    /\ db (world p') = db (world p)
    /\ tasks (world p') = tasks (world p).
Proof.
  intros Hfail. unfold Plugin.init. cbn [world].
  destruct (syncWithRetry_default_fails (world p) err Hfail)
    as [w' [Hrun [Hdb Htasks]]].
  rewrite Hrun. eexists. split; [reflexivity |].
  unfold withWorld. cbn. repeat split; assumption.
Qed.

(** X15 (local monitoring starts exactly when a folder is configured).  When
    the remote sync succeeds within the three attempts, [init] returns
    normally.  If [localFolder] is a non-empty string, one watcher is
    created on that folder, open, persistent, reporting the files already
    present and ignoring [.tmp] and [.crdownload] files; it becomes
    [this.watcher], and the start is the last thing logged.  If
    [localFolder] is left out or empty, no watcher is created. *)
Theorem init_monitors_iff_folder (this : DrivePlugin) (p : Process)
    (j : nat) (err : nat -> JsError) (result : SyncResult) :
  (j < 3)%nat ->
  (forall k, (k < j)%nat ->
     syncGoogleDriveChanges E (k + syncCalls (world p)) = inl (err k)) ->
  syncGoogleDriveChanges E (j + syncCalls (world p)) = inr result ->
  exists this' p',
    Plugin.init E this p = Some (Normal tt, this', p')
    /\ match localFolder (config this) with
       | Some (String c rest) =>
           watchers p' = watchers p ++
             [{| watchedPath := String c rest;
                 watchOptions :=
                   {| persistent := true; ignoreInitial := false;
                      ignored := ["**/*.tmp"; "**/*.crdownload"] |};
                 closed := false |}]
           /\ watcher this' = Some (List.length (watchers p))
           /\ exists pre,
                trace (world p') = pre ++
                  [ELog (Info ("Started monitoring local folder: "
                                 +++ String c rest))]
       | _ => watchers p' = watchers p /\ this' = this
       end.
Proof.
  intros Hj Hfail Hok. unfold Plugin.init. cbn [world].
  destruct (retryLoop_recovers E j (S (Z.to_nat 3)) 3 0 (world p) err result)
    as [w' [delta [Hrun _]]]; [lia | cbn; lia | exact Hfail | exact Hok |].
  unfold syncWithRetry. cbn [Js.orDefault]. rewrite Hrun.
  destruct (localFolder (config this)) as [[| c rest] |].
  - eexists; eexists. split; [reflexivity |]. split; reflexivity.
  - unfold Plugin.startLocalMonitoring, withWorld. cbn [world watchers].
    eexists; eexists. split; [reflexivity |]. cbn [watchers watcher world].
    split; [reflexivity |]. split; [reflexivity |].
    unfold startLocalMonitoring, bind, logger.info, emit, ret.
    cbn [snd trace]. eexists. reflexivity.
  - eexists; eexists. split; [reflexivity |]. split; reflexivity.
Qed.

(** X16 (stop closes the watcher that was started).  After
    [startLocalMonitoring], [stop] closes the watcher just created and no
    other, and logs that monitoring has stopped; on an object that has never
    started monitoring, [stop] does nothing. *)
Theorem stop_closes_the_watcher (this : DrivePlugin) (folderPath : string)
    (p : Process) :
  (watcher this = None -> Plugin.stop this p = p)
  /\ let started := Plugin.startLocalMonitoring E this folderPath p in
     let p' := Plugin.stop (fst started) (snd started) in
     watchers p' = watchers p ++
       [{| watchedPath := folderPath;
           watchOptions := Plugin.localWatchOptions;
           closed := true |}]
     /\ logged (trace (world p')) = logged (trace (world p)) ++
          [Info ("Started monitoring local folder: " +++ folderPath);
           Info "Stopped local folder monitoring"]
     /\ db (world p') = db (world p)
     /\ tasks (world p') = tasks (world p).
Proof.
  split.
  - intros Hnone. unfold Plugin.stop. rewrite Hnone. reflexivity.
  - cbv zeta. unfold Plugin.startLocalMonitoring, Plugin.stop.
    cbn [fst snd watcher watchers world].
    rewrite closeAt_last. cbn [watchedPath watchOptions].
    split; [reflexivity |].
    unfold startLocalMonitoring, bind, logger.info, emit, ret.
    cbn [snd trace db tasks].
    rewrite !logged_app, <- app_assoc. repeat split; reflexivity.
Qed.

Lemma closeAt_twice i :
  forall ws, Plugin.closeAt i (Plugin.closeAt i ws) = Plugin.closeAt i ws.
Proof.
  induction i as [| i IH]; intros [| x ws]; try reflexivity.
  cbn [Plugin.closeAt]. rewrite IH. reflexivity.
Qed.

(** Any number of [stop]s closes the current watcher, once. *)
Lemma stops_close_once (this : DrivePlugin) (i : nat) (stops : nat) p :
  watcher this = Some i ->
  watchers (Nat.iter stops (Plugin.stop this) p)
  = match stops with
    | O => watchers p
    | S _ => Plugin.closeAt i (watchers p)
    end.
Proof.
  intros Hw. induction stops as [| stops IH]; [reflexivity |].
  rewrite Nat.iter_succ. unfold Plugin.stop at 1. rewrite Hw. cbn [watchers].
  rewrite IH. destruct stops; [reflexivity | apply closeAt_twice].
Qed.

(** X17 (starting twice leaks the first watcher).  When
    [startLocalMonitoring] is called a second time on the same object, the
    first watcher is neither closed then nor by any later [stop]: [stop]
    closes the second watcher only. *)
Theorem restart_leaks_first_watcher (this : DrivePlugin)
    (folder1 folder2 : string) (p : Process) (stops : nat) :
  let first := Plugin.startLocalMonitoring E this folder1 p in
  let second :=
    Plugin.startLocalMonitoring E (fst first) folder2 (snd first) in
  let final := Nat.iter stops (Plugin.stop (fst second)) (snd second) in
  nth_error (watchers final) (List.length (watchers p))
  = Some {| watchedPath := folder1;
            watchOptions := Plugin.localWatchOptions;
            closed := false |}
  /\ ((0 < stops)%nat ->
      nth_error (watchers final) (S (List.length (watchers p)))
      = Some {| watchedPath := folder2;
                watchOptions := Plugin.localWatchOptions;
                closed := true |}).
Proof.
  intros first second final.
  set (w1 := {| watchedPath := folder1;
                watchOptions := Plugin.localWatchOptions; closed := false |}).
  set (w2 := {| watchedPath := folder2;
                watchOptions := Plugin.localWatchOptions; closed := false |}).
  assert (Hthis : watcher (fst second) = Some (S (List.length (watchers p)))).
  { subst second first. unfold Plugin.startLocalMonitoring.
    cbn [fst snd watcher watchers]. rewrite length_app. cbn. f_equal. lia. }
  assert (Hws : watchers (snd second) = (watchers p ++ [w1]) ++ [w2])
    by reflexivity.
  assert (Hlen : List.length (watchers p ++ [w1]) = S (List.length (watchers p)))
    by (rewrite length_app; cbn; lia).
  subst final. rewrite (stops_close_once _ _ stops _ Hthis), Hws.
  split.
  - assert (Hopen : nth_error ((watchers p ++ [w1]) ++ [w2])
                      (List.length (watchers p)) = Some w1).
    { rewrite nth_error_app1 by lia.
      rewrite nth_error_app2 by lia. rewrite Nat.sub_diag. reflexivity. }
    destruct stops; [exact Hopen |].
    rewrite closeAt_other by lia. exact Hopen.
  - intros Hpos. destruct stops as [| stops]; [lia |].
    rewrite <- Hlen, closeAt_last.
    rewrite nth_error_app2 by lia. rewrite Nat.sub_diag. reflexivity.
Qed.

End PluginFacts.

(* ===================================================================== *)
(** ** The arXiv plugin *)
(* ===================================================================== *)

Module ArXivFacts.

Import ArXiv.

Lemma prefix_append pat rest : prefix pat (pat +++ rest) = true.
Proof.
  induction pat as [| c pat IH]; cbn.
  - destruct rest; reflexivity.
  - destruct (ascii_dec c c); [exact IH | congruence].
Qed.

Lemma drop_append pat rest : drop (String.length pat) (pat +++ rest) = rest.
Proof.
  induction pat as [| c pat IH]; [reflexivity | exact IH].
Qed.

Lemma mismatch_prefix pat :
  forall t rest, Scan.mismatch pat t = true -> prefix pat (t +++ rest) = false.
Proof.
  induction pat as [| a pat IH]; intros [| b t] rest H; cbn in H;
    try discriminate.
  cbn [String.append prefix].
  destruct (ascii_dec a b) as [-> | Hne].
  - rewrite Ascii.eqb_refl in H. apply IH. exact H.
  - reflexivity.
Qed.

(** Text the pattern cannot begin in is passed over. *)
Lemma cut_apart pat t rest :
  Scan.apart pat t = true ->
  cut pat (t +++ rest)
  = match cut pat rest with
    | Some (before, after) => Some (t +++ before, after)
    | None => None
    end.
Proof.
  induction t as [| c t IH]; intros H.
  - cbn [String.append]. destruct (cut pat rest) as [[b a] |]; reflexivity.
  - cbn [Scan.apart] in H. apply andb_true_iff in H. destruct H as [Hm Ha].
    pose proof (mismatch_prefix pat (String c t) rest Hm) as Hp.
    cbn [String.append] in Hp |- *. cbn [cut]. rewrite Hp, (IH Ha).
    destruct (cut pat rest) as [[b a] |]; reflexivity.
Qed.

Lemma cut_here pat rest : cut pat (pat +++ rest) = Some (EmptyString, rest).
Proof.
  destruct pat as [| c pat].
  - cbn [String.append]. destruct rest; reflexivity.
  - pose proof (prefix_append (String c pat) rest) as Hp.
    pose proof (drop_append (String c pat) rest) as Hd.
    cbn [String.append] in Hp, Hd |- *. cbn [cut]. rewrite Hp.
    cbn [String.length]. cbn [String.length] in Hd. rewrite Hd. reflexivity.
Qed.

(** Plain text is apart from every pattern that begins with [<]. *)
Lemma plain_apart pat t :
  plain t = true -> Scan.apart (String "<" pat) t = true.
Proof.
  induction t as [| c t IH]; intros H; [reflexivity |].
  cbn [plain] in H. apply andb_true_iff in H. destruct H as [H Ht].
  apply andb_true_iff in H. destruct H as [Hlt _].
  cbn [Scan.apart Scan.mismatch].
  rewrite Ascii.eqb_sym. apply negb_true_iff in Hlt. rewrite Hlt.
  cbn. apply IH. exact Ht.
Qed.

Lemma plain_oneLine t : plain t = true -> oneLine t = true.
Proof.
  induction t as [| c t IH]; intros H; [reflexivity |].
  cbn [plain] in H. apply andb_true_iff in H. destruct H as [H Ht].
  apply andb_true_iff in H. destruct H as [_ Hnl].
  cbn [oneLine]. rewrite Hnl, (IH Ht). reflexivity.
Qed.

(** The lazy run stops at the first closing tag after plain text. *)
Lemma lazyDots_plain ct close t rest :
  ct = String "<" close ->
  plain t = true ->
  lazyDots ct (t +++ ct +++ rest) = Some t.
Proof.
  intros Hct. induction t as [| c t IH]; intros H.
  - subst ct.
    pose proof (prefix_append (String "<" close) rest) as Hp.
    cbn [String.append] in Hp |- *. cbn [lazyDots]. rewrite Hp. reflexivity.
  - assert (Hm : prefix ct (String c t +++ ct +++ rest) = false).
    { apply mismatch_prefix.
      pose proof (plain_apart close (String c t) H) as Ha.
      rewrite <- Hct in Ha.
      cbn [Scan.apart] in Ha. apply andb_true_iff in Ha. apply Ha. }
    cbn [plain] in H. apply andb_true_iff in H. destruct H as [H Ht].
    apply andb_true_iff in H. destruct H as [_ Hnl].
    apply negb_true_iff in Hnl.
    cbn [String.append] in Hm |- *. cbn [lazyDots].
    rewrite Hm, Hnl, (IH Ht). reflexivity.
Qed.

(** Text the opening tag cannot begin in is passed over. *)
Lemma matchTag_apart open close t rest :
  Scan.apart open t = true ->
  matchTag open close (t +++ rest) = matchTag open close rest.
Proof.
  induction t as [| c t IH]; intros H; [reflexivity |].
  cbn [Scan.apart] in H. apply andb_true_iff in H. destruct H as [Hm Ha].
  pose proof (mismatch_prefix open (String c t) rest Hm) as Hp.
  cbn [String.append] in Hp |- *. cbn [matchTag]. rewrite Hp.
  apply IH. exact Ha.
Qed.

Lemma matchTag_here open close rest captured :
  open <> EmptyString ->
  lazyDots close rest = Some captured ->
  matchTag open close (open +++ rest) = Some captured.
Proof.
  intros Hne Hl. destruct open as [| c open]; [congruence |].
  pose proof (prefix_append (String c open) rest) as Hp.
  pose proof (drop_append (String c open) rest) as Hd.
  cbn [String.append] in Hp, Hd |- *. cbn [matchTag]. rewrite Hp.
  cbn [String.length] in Hd |- *. rewrite Hd, Hl. reflexivity.
Qed.

Lemma append_nil_r s : s +++ EmptyString = s.
Proof.
  induction s as [| c s IH]; cbn; [reflexivity | rewrite IH; reflexivity].
Qed.

Ltac split_plain H :=
  unfold plainFields in H;
  apply andb_true_iff in H; destruct H as [H ?Hs];
  apply andb_true_iff in H; destruct H as [?Hi ?Ht].

(** The body of a rendered entry ends at its closing tag. *)
Lemma cut_body r rest :
  plainFields r = true ->
  cut "</entry>" (renderBody r +++ "</entry>" +++ rest)
  = Some (renderBody r, rest).
Proof.
  intros H. split_plain H. unfold renderBody.
  repeat rewrite JsFacts.append_assoc.
  rewrite (cut_apart "</entry>" "<id>") by reflexivity.
  rewrite (cut_apart "</entry>" (a_id r)) by (apply plain_apart; assumption).
  rewrite (cut_apart "</entry>" "</id>") by reflexivity.
  rewrite (cut_apart "</entry>" "<title>") by reflexivity.
  rewrite (cut_apart "</entry>" (a_title r)) by (apply plain_apart; assumption).
  rewrite (cut_apart "</entry>" "</title>") by reflexivity.
  rewrite (cut_apart "</entry>" "<summary>") by reflexivity.
  rewrite (cut_apart "</entry>" (a_summary r))
    by (apply plain_apart; assumption).
  rewrite (cut_apart "</entry>" "</summary>") by reflexivity.
  rewrite cut_here. reflexivity.
Qed.

(** The entries of a rendered feed are found one by one. *)
Lemma matchEntries_rendered rs :
  forall fuel rest,
    Forall (fun r => plainFields r = true) rs ->
    cut "<entry>" rest = None ->
    (List.length rs <= fuel)%nat ->
    matchEntries fuel (renderEntries rs +++ rest) = map renderEntry rs.
Proof.
  induction rs as [| r rs IH]; intros fuel rest Hplain Hrest Hfuel.
  - cbn [renderEntries String.append map].
    destruct fuel; [reflexivity |]. cbn [matchEntries]. rewrite Hrest.
    reflexivity.
  - destruct fuel as [| fuel]; [cbn in Hfuel; lia |].
    inversion Hplain as [| r' rs' Hr Hrs]; subst.
    cbn [renderEntries map]. unfold renderEntry at 1.
    repeat rewrite JsFacts.append_assoc.
    cbn [matchEntries]. rewrite cut_here.
    rewrite (cut_body r _ Hr).
    rewrite (IH fuel rest Hrs Hrest) by (cbn in Hfuel; lia).
    reflexivity.
Qed.

(** Text on one line has no line break to replace. *)
Lemma replaceNewlines_oneLine s : oneLine s = true -> replaceNewlines s = s.
Proof.
  induction s as [| c s IH]; intros Hone; [reflexivity |].
  cbn [oneLine] in Hone. apply andb_true_iff in Hone.
  destruct Hone as [Hc Hrest]. apply negb_true_iff in Hc.
  unfold isLineTerminator in Hc. apply orb_false_iff in Hc.
  destruct Hc as [Hlf Hcr].
  cbn [replaceNewlines]. rewrite Hcr, Hlf, (IH Hrest). reflexivity.
Qed.

(** A rendered entry is read back, its summary trimmed. *)
Lemma parseEntry_rendered r :
  plainFields r = true ->
  parseEntry (renderEntry r)
  = {| a_id := a_id r; a_title := a_title r; a_summary := trim (a_summary r) |}.
Proof.
  intros H. split_plain H.
  unfold parseEntry, renderEntry, renderBody.
  repeat rewrite JsFacts.append_assoc.
  (* id *)
  rewrite (matchTag_apart "<id>" "</id>" "<entry>") by reflexivity.
  rewrite (matchTag_here "<id>" "</id>" _ (a_id r))
    by first [ discriminate
             | apply (lazyDots_plain "</id>" "/id>");
               [reflexivity | assumption] ].
  (* title *)
  rewrite (matchTag_apart "<title>" "</title>" "<entry>") by reflexivity.
  rewrite (matchTag_apart "<title>" "</title>" "<id>") by reflexivity.
  rewrite (matchTag_apart "<title>" "</title>" (a_id r))
    by (apply plain_apart; assumption).
  rewrite (matchTag_apart "<title>" "</title>" "</id>") by reflexivity.
  rewrite (matchTag_here "<title>" "</title>" _ (a_title r))
    by first [ discriminate
             | apply (lazyDots_plain "</title>" "/title>");
               [reflexivity | assumption] ].
  (* summary *)
  rewrite (matchTag_apart "<summary>" "</summary>" "<entry>") by reflexivity.
  rewrite (matchTag_apart "<summary>" "</summary>" "<id>") by reflexivity.
  rewrite (matchTag_apart "<summary>" "</summary>" (a_id r))
    by (apply plain_apart; assumption).
  rewrite (matchTag_apart "<summary>" "</summary>" "</id>") by reflexivity.
  rewrite (matchTag_apart "<summary>" "</summary>" "<title>") by reflexivity.
  rewrite (matchTag_apart "<summary>" "</summary>" (a_title r))
    by (apply plain_apart; assumption).
  rewrite (matchTag_apart "<summary>" "</summary>" "</title>") by reflexivity.
  rewrite (matchTag_here "<summary>" "</summary>" _ (a_summary r))
    by first [ discriminate
             | apply (lazyDots_plain "</summary>" "/summary>");
               [reflexivity | assumption] ].
  rewrite replaceNewlines_oneLine by (apply plain_oneLine; assumption).
  reflexivity.
Qed.

End ArXivFacts.

Module ArXivFuel.

Import ArXiv.

Lemma length_drop n : forall s, String.length (drop n s) = (String.length s - n)%nat.
Proof.
  induction n as [| n IH]; intros [| c s]; cbn [drop String.length];
    try reflexivity; try lia.
  rewrite IH. reflexivity.
Qed.

Lemma prefix_length pat :
  forall s, prefix pat s = true -> (String.length pat <= String.length s)%nat.
Proof.
  induction pat as [| a pat IH]; intros [| b s] H; cbn in H |- *;
    try lia; try discriminate.
  destruct (ascii_dec a b); [| discriminate].
  apply IH in H. lia.
Qed.

(** What [cut] returns are the two sides of an occurrence. *)
Lemma cut_length pat s :
  forall before after,
    cut pat s = Some (before, after) ->
    String.length s
    = (String.length before + String.length pat + String.length after)%nat.
Proof.
  induction s as [| c s IH]; intros before after H; cbn [cut] in H.
  - destruct (prefix pat EmptyString) eqn:Hp; [| discriminate].
    injection H as <- <-. apply prefix_length in Hp.
    rewrite length_drop. cbn [String.length] in *. lia.
  - destruct (prefix pat (String c s)) eqn:Hp.
    + injection H as <- <-. apply prefix_length in Hp.
      rewrite length_drop. cbn [String.length] in *. lia.
    + destruct (cut pat s) as [[b a] |] eqn:Hc; [| discriminate].
      injection H as <- <-. cbn [String.length].
      rewrite (IH b a eq_refl). lia.
Qed.

(** Fuel above the length of the text is never used up. *)
Lemma matchEntries_fuel n :
  forall fuel1 fuel2 xml,
    (String.length xml <= n)%nat -> (n <= fuel1)%nat -> (n <= fuel2)%nat ->
    matchEntries fuel1 xml = matchEntries fuel2 xml.
Proof.
  induction n as [| n IH]; intros fuel1 fuel2 xml Hlen H1 H2.
  - destruct xml as [| c xml]; [| cbn in Hlen; lia].
    destruct fuel1, fuel2; reflexivity.
  - destruct fuel1 as [| fuel1]; [lia |].
    destruct fuel2 as [| fuel2]; [lia |].
    cbn [matchEntries].
    destruct (cut "<entry>" xml) as [[b1 afterOpen] |] eqn:Hc1; [| reflexivity].
    destruct (cut "</entry>" afterOpen) as [[body rest] |] eqn:Hc2;
      [| reflexivity].
    apply cut_length in Hc1. apply cut_length in Hc2.
    cbn [String.length] in Hc1, Hc2.
    f_equal. apply IH; lia.
Qed.

(** The matches of the text, one after the other: the regular expression
    finds the first [<entry>], then the first [</entry>] after it, and goes
    on behind that. *)
Lemma entriesOf_unfold xml :
  entriesOf xml
  = match cut "<entry>" xml with
    | None => []
    | Some (_, afterOpen) =>
        match cut "</entry>" afterOpen with
        | None => []
        | Some (body, rest) =>
            ("<entry>" +++ body +++ "</entry>") :: entriesOf rest
        end
    end.
Proof.
  unfold entriesOf.
  destruct xml as [| c xml]; [reflexivity |].
  cbn [String.length matchEntries].
  destruct (cut "<entry>" (String c xml)) as [[b1 afterOpen] |] eqn:Hc1;
    [| reflexivity].
  destruct (cut "</entry>" afterOpen) as [[body rest] |] eqn:Hc2;
    [| reflexivity].
  apply cut_length in Hc1. apply cut_length in Hc2.
  cbn [String.length] in Hc1, Hc2.
  f_equal. apply (matchEntries_fuel (String.length rest)); lia.
Qed.

End ArXivFuel.

Module ArXivExtras.

Import ArXiv.

Lemma length_renderEntries rs :
  (List.length rs <= String.length (renderEntries rs))%nat.
Proof.
  induction rs as [| r rs IH]; [cbn; lia |].
  cbn [renderEntries List.length]. rewrite JsFacts.length_append.
  unfold renderEntry. rewrite JsFacts.length_append. cbn [String.length]. lia.
Qed.

(** X19 (a feed is read back).  When the server answers with entries written
    one after the other, each with an [id], a [title] and a [summary] that
    contain neither [<] nor a line break, followed by text without
    [<entry>], [search] returns these entries in order, each with its [id]
    and [title] as written and its [summary] trimmed, and reports their
    number on the console. *)
Theorem search_reads_rendered_feed (fetchText : string -> JsError + string)
    (query : string) (maxResults : option Z)
    (rs : list ArXivResult) (rest : string) :
  Forall (fun r => plainFields r = true) rs ->
  cut "<entry>" rest = None ->
  fetchText (searchUrl query (Js.orDefault maxResults 10))
  = inr (renderEntries rs +++ rest) ->
  search fetchText query maxResults
  = (map (fun r => {| a_id := a_id r; a_title := a_title r;
                      a_summary := trim (a_summary r) |}) rs,
     [ConsoleLog ("Found " +++ Js.showZ (Z.of_nat (List.length rs))
                    +++ " arXiv papers for query: " +++ query)]).
Proof.
  intros Hplain Hrest Hfetch. unfold search. rewrite Hfetch.
  unfold entriesOf.
  rewrite (ArXivFacts.matchEntries_rendered rs _ rest Hplain Hrest)
    by (rewrite JsFacts.length_append;
        pose proof (length_renderEntries rs); lia).
  rewrite !length_map, map_map. f_equal.
  apply map_ext_in. intros r Hin.
  rewrite Forall_forall in Hplain.
  apply ArXivFacts.parseEntry_rendered. apply Hplain. exact Hin.
Qed.

Lemma lazyDots_oneLine close s :
  forall captured, lazyDots close s = Some captured -> oneLine captured = true.
Proof.
  induction s as [| c s IH]; intros captured H; cbn [lazyDots] in H.
  - destruct (prefix close EmptyString); [| discriminate].
    injection H as <-. reflexivity.
  - destruct (prefix close (String c s)).
    + injection H as <-. reflexivity.
    + destruct (isLineTerminator c) eqn:Hc; [discriminate |].
      destruct (lazyDots close s) as [x |]; [| discriminate].
      injection H as <-. cbn [oneLine]. rewrite Hc, (IH x eq_refl).
      reflexivity.
Qed.

Lemma matchTag_oneLine open close s :
  forall captured,
    matchTag open close s = Some captured -> oneLine captured = true.
Proof.
  induction s as [| c s IH]; intros captured H; cbn [matchTag] in H.
  - destruct (prefix open EmptyString).
    + destruct (lazyDots close (drop (String.length open) EmptyString))
        as [x |] eqn:Hl; [| discriminate].
      injection H as <-. eapply lazyDots_oneLine. exact Hl.
    + discriminate.
  - destruct (if prefix open (String c s)
              then lazyDots close (drop (String.length open) (String c s))
              else None) as [x |] eqn:Hl.
    + injection H as <-.
      destruct (prefix open (String c s)); [| discriminate].
      eapply lazyDots_oneLine. exact Hl.
    + apply IH. exact H.
Qed.

Lemma trimStart_oneLine s : oneLine s = true -> oneLine (trimStart s) = true.
Proof.
  induction s as [| c s IH]; intros H; [reflexivity |].
  cbn [trimStart]. destruct (isWhiteSpace c); [| exact H].
  cbn [oneLine] in H. apply andb_true_iff in H. apply IH. apply H.
Qed.

Lemma trimEnd_oneLine s : oneLine s = true -> oneLine (trimEnd s) = true.
Proof.
  induction s as [| c s IH]; intros H; [reflexivity |].
  cbn [oneLine] in H. apply andb_true_iff in H. destruct H as [Hc Hs].
  cbn [trimEnd]. specialize (IH Hs).
  destruct (trimEnd s) as [| d t].
  - destruct (isWhiteSpace c); [reflexivity |].
    cbn [oneLine]. rewrite Hc. reflexivity.
  - cbn [oneLine] in IH |- *. rewrite Hc. exact IH.
Qed.

(** X20 (no field spans lines).  Whatever the entry, none of the three
    fields [search] returns for it contains a line feed or a carriage
    return: text between an opening and a closing tag that spans lines is
    not taken as the field.  The replacement of line breaks in the summary
    therefore never replaces anything: the summary is the trimmed text
    between the tags. *)
Theorem fields_never_span_lines (entry : string) :
  oneLine (a_id (parseEntry entry)) = true
  /\ oneLine (a_title (parseEntry entry)) = true
  /\ oneLine (a_summary (parseEntry entry)) = true
  /\ a_summary (parseEntry entry)
     = match matchTag "<summary>" "</summary>" entry with
       | Some x => trim x
       | None => "No summary"
       end.
Proof.
  unfold parseEntry. cbn [a_id a_title a_summary].
  split; [| split; [| split]].
  - destruct (matchTag "<id>" "</id>" entry) as [x |] eqn:H; [| reflexivity].
    eapply matchTag_oneLine. exact H.
  - destruct (matchTag "<title>" "</title>" entry) as [x |] eqn:H;
      [| reflexivity].
    eapply matchTag_oneLine. exact H.
  - destruct (matchTag "<summary>" "</summary>" entry) as [x |] eqn:H;
      [| reflexivity].
    apply matchTag_oneLine in H.
    rewrite (ArXivFacts.replaceNewlines_oneLine x H).
    unfold trim. apply trimEnd_oneLine, trimStart_oneLine. exact H.
  - destruct (matchTag "<summary>" "</summary>" entry) as [x |] eqn:H;
      [| reflexivity].
    apply matchTag_oneLine in H.
    rewrite (ArXivFacts.replaceNewlines_oneLine x H). reflexivity.
Qed.

Lemma allChars_append ok s1 s2 :
  Scan.allChars ok (s1 +++ s2) = Scan.allChars ok s1 && Scan.allChars ok s2.
Proof.
  induction s1 as [| c s1 IH]; [reflexivity |].
  cbn [String.append Scan.allChars]. rewrite IH, andb_assoc. reflexivity.
Qed.

Lemma hexUpper_unreserved k : isUnreserved (hexUpper k) = true.
Proof.
  do 16 (destruct k as [| k]; [reflexivity |]). reflexivity.
Qed.

(** X21 (the query cannot add parameters to the address).  Every character
    of the encoded query is a letter, a digit, one of [- _ . ! ~ * ' ( )] or
    a percent sign: whatever the query, no [&], [=], [?], [#], [/] or space
    of its own reaches the address [search] fetches. *)
Theorem search_query_is_escaped (query : string) :
  Scan.allChars (fun c => isUnreserved c || Ascii.eqb c "%")
    (encodeURIComponent query) = true
  /\ Scan.allChars
       (fun c => negb (Ascii.eqb c "&" || Ascii.eqb c "=" || Ascii.eqb c "?"
                       || Ascii.eqb c "#" || Ascii.eqb c "/"
                       || Ascii.eqb c " "))
       (encodeURIComponent query) = true.
Proof.
  assert (Hpercent : forall ok b,
            ok "%"%char = true ->
            (forall k, ok (hexUpper k) = true) ->
            Scan.allChars ok (percent b) = true).
  { intros ok b Hp Hh. unfold percent. cbn [Scan.allChars].
    rewrite Hp, !Hh. reflexivity. }
  assert (Hgen : forall ok : ascii -> bool,
            ok "%"%char = true ->
            (forall c, isUnreserved c = true -> ok c = true) ->
            Scan.allChars ok (encodeURIComponent query) = true).
  { intros ok Hp Hu.
    assert (Hh : forall k, ok (hexUpper k) = true)
      by (intros k; apply Hu, hexUpper_unreserved).
    induction query as [| c q IH]; [reflexivity |].
    cbn [encodeURIComponent]. rewrite allChars_append, IH, andb_true_r.
    unfold encodeChar. destruct (isUnreserved c) eqn:Hc.
    - cbn [Scan.allChars]. rewrite (Hu c Hc). reflexivity.
    - destruct (nat_of_ascii c <? 128)%nat.
      + apply Hpercent; assumption.
      + rewrite allChars_append, !Hpercent by assumption. reflexivity. }
  split.
  - apply Hgen; [reflexivity |]. intros c Hc. rewrite Hc. reflexivity.
  - apply Hgen; [reflexivity |]. intros c Hc.
    destruct c as [b0 b1 b2 b3 b4 b5 b6 b7].
    destruct b0, b1, b2, b3, b4, b5, b6, b7; try reflexivity;
      discriminate Hc.
Qed.

End ArXivExtras.

(* ===================================================================== *)
(** ** Further runs on concrete collaborators *)
(* ===================================================================== *)

Module Checks.

Lemma gives_up_after_five :
  exists w',
    syncWithRetry Demo.quiet (Some 5) Demo.emptyWorld
    = Some (Throw "ECONNRESET #4", w')
    /\ sleeps (trace w') = [2000; 4000; 8000; 16000].
Proof.
  destruct (retry_gives_up_after_all_attempts Demo.quiet 4 Demo.emptyWorld
              Fixtures.failureAt (proj1 (Nat.leb_le 4 21) eq_refl)
              (fun k _ => eq_refl))
    as [w' [delta [Hrun [Htrace [_ [Hsleeps _]]]]]].
  exists w'. split; [exact Hrun |].
  rewrite Htrace, sleeps_app, Hsleeps. reflexivity.
Defined.

Lemma recovers_at_third_of_five :
  exists w',
    syncWithRetry Fixtures.recovering (Some 5) Demo.emptyWorld
    = Some (Normal tt, w')
    /\ syncCount (trace w') = 3%nat
    /\ sleeps (trace w') = [2000; 4000].
Proof.
  destruct (retry_recovers_at_any_attempt Fixtures.recovering 2 5
              Demo.emptyWorld Fixtures.failureAt "[1]")
    as [w' [delta [Hrun [Htrace [Hcount [Hsleeps _]]]]]].
  - lia.
  - reflexivity.
  - intros [| [| k]] Hk; [reflexivity | reflexivity | lia].
  - reflexivity.
  - exists w'. split; [exact Hrun |].
    rewrite Htrace, syncCount_app, sleeps_app, Hcount, Hsleeps.
    split; reflexivity.
Defined.

Lemma default_call_bound :
  exists c w' delta,
    syncWithRetry Fixtures.recovering None Demo.emptyWorld = Some (c, w')
    /\ trace w' = delta
    /\ Z.of_nat (syncCount delta) <= 3
    /\ List.length (sleeps delta) = (syncCount delta - 1)%nat
    /\ Forall (fun d => 2000 <= d /\ d <= 4000) (sleeps delta).
Proof.
  destruct (retry_call_bound Fixtures.recovering None Demo.emptyWorld)
    as [c [w' [delta [Hrun [Htrace [Hcount [_ [Hlen Hdelays]]]]]]]].
  - cbn. lia.
  - exists c, w', delta. split; [exact Hrun |]. split; [exact Htrace |].
    split; [exact Hcount |]. split; [exact Hlen |].
    eapply Forall_impl; [| exact Hdelays].
    intros d [H1 [H2 _]]. cbn [Js.orDefault] in H2.
    change (2 ^ 3) with 8 in H2. lia.
Defined.

Lemma throws_iff_three_failures :
  (exists w',
     syncWithRetry Demo.quiet (Some 3) Demo.emptyWorld
     = Some (Throw "ECONNRESET #2", w'))
  <-> ((forall k, (k < 3)%nat ->
          exists e', Demo.alwaysFails (k + 0) = inl e')
       /\ Demo.alwaysFails 2 = inl "ECONNRESET #2").
Proof.
  apply (retry_throws_iff_all_fail Demo.quiet 3 Demo.emptyWorld
           "ECONNRESET #2").
  lia.
Defined.

Lemma default_backoff_is_six_seconds :
  exists w',
    syncWithRetry Demo.quiet (Some 3) Demo.emptyWorld
    = Some (Throw "ECONNRESET #2", w')
    /\ sumZ (sleeps (trace w')) = 6000.
Proof.
  destruct (retry_total_backoff Demo.quiet 2 Demo.emptyWorld
              Fixtures.failureAt (proj1 (Nat.leb_le 2 21) eq_refl)
              (fun k _ => eq_refl))
    as [w' [delta [Hrun [Htrace [_ Hsum]]]]].
  exists w'. split; [exact Hrun |].
  rewrite Htrace. exact Hsum.
Defined.

Lemma primary_key_kept :
  Db.pkValid
    (db (snd (deliver Demo.writeRejected
                [EvAdd "/watch/paper.pdf"; EvChange "/watch/sub/copy.pdf";
                 EvAdd "/watch/other.pdf"; EvUnlink "/watch/paper.pdf"]
                Demo.emptyWorld))).
Proof.
  apply (deliver_keeps_primary_key Demo.writeRejected).
  apply NoDup_nil.
Defined.

Lemma windows_path_name :
  (Js.isSep "\" = true ->
     fileNameOf ("C:\docs" +++ String "\" "paper.pdf") = "paper.pdf")
  /\ fileNameOf "paper.pdf" = "paper.pdf".
Proof.
  exact (PathFacts.fileNameOf_of_join "C:\docs" "\" "paper.pdf" eq_refl).
Defined.

Lemma partial_download_run :
  fst (handle Demo.quiet (EvAdd "/watch/paper.pdf.crdownload")
         Demo.emptyWorld) = Normal tt
  /\ db (snd (handle Demo.quiet (EvAdd "/watch/paper.pdf.crdownload")
                Demo.emptyWorld)) = []
  /\ tasks (snd (handle Demo.quiet (EvAdd "/watch/paper.pdf.crdownload")
                   Demo.emptyWorld)) = []
  /\ fsCalls (trace (snd (handle Demo.quiet
                            (EvAdd "/watch/paper.pdf.crdownload")
                            Demo.emptyWorld))) = []
  /\ dbCalls (snd (handle Demo.quiet (EvAdd "/watch/paper.pdf.crdownload")
                     Demo.emptyWorld)) = 0%nat.
Proof.
  exact (temp_files_are_never_ingested Demo.quiet
           "/watch/paper.pdf.crdownload"
           (EvAdd "/watch/paper.pdf.crdownload") Demo.emptyWorld
           (or_intror eq_refl) (or_introl eq_refl)).
Defined.

Lemma init_without_remote :
  exists p',
    Plugin.init Demo.quiet (Plugin.new (Fixtures.driveConfig (Some "/watch")))
      Fixtures.emptyProcess
    = Some (Throw "ECONNRESET #2",
            Plugin.new (Fixtures.driveConfig (Some "/watch")), p')
    /\ watchers p' = [].
Proof.
  destruct (init_sync_failure_blocks_monitoring Demo.quiet
              (Plugin.new (Fixtures.driveConfig (Some "/watch")))
              Fixtures.emptyProcess Fixtures.failureAt (fun k _ => eq_refl))
    as [p' [Hrun [Hw _]]].
  exists p'. split; [exact Hrun | exact Hw].
Defined.

Lemma init_with_folder :
  exists this' p',
    Plugin.init Fixtures.recovering
      (Plugin.new (Fixtures.driveConfig (Some "/watch")))
      Fixtures.emptyProcess
    = Some (Normal tt, this', p')
    /\ watchers p'
       = [{| watchedPath := "/watch";
             watchOptions := Plugin.localWatchOptions;
             closed := false |}]
    /\ watcher this' = Some 0%nat.
Proof.
  destruct (init_monitors_iff_folder Fixtures.recovering
              (Plugin.new (Fixtures.driveConfig (Some "/watch")))
              Fixtures.emptyProcess 2 Fixtures.failureAt "[1]")
    as [this' [p' [Hrun [Hw [Hthis _]]]]].
  - lia.
  - intros [| [| k]] Hk; [reflexivity | reflexivity | lia].
  - reflexivity.
  - exists this', p'. split; [exact Hrun |]. split; [exact Hw | exact Hthis].
Defined.

Lemma two_papers_run :
  ArXiv.search FeedFixtures.twoPapers "retry backoff" None
  = ([{| ArXiv.a_id := "http://arxiv.org/abs/2501.00001v1";
         ArXiv.a_title := "On retries";
         ArXiv.a_summary := "We study backoff." |};
      {| ArXiv.a_id := "http://arxiv.org/abs/2501.00002v2";
         ArXiv.a_title := "";
         ArXiv.a_summary := "Short" |}],
     [ArXiv.ConsoleLog "Found 2 arXiv papers for query: retry backoff"]).
Proof.
  apply (ArXivExtras.search_reads_rendered_feed FeedFixtures.twoPapers
           "retry backoff" None
           [FeedFixtures.paper1; FeedFixtures.paper2] "</feed>").
  - repeat constructor.
  - reflexivity.
  - reflexivity.
Defined.

(** A summary written on two lines is not found. *)
Example two_line_summary :
  ArXiv.parseEntry
    ("<entry><id>1</id><summary>first" +++ String ArXiv.LF "second"
       +++ "</summary></entry>")
  = {| ArXiv.a_id := "1"; ArXiv.a_title := "No title";
       ArXiv.a_summary := "No summary" |}.
Proof. vm_compute. reflexivity. Qed.

End Checks.
